(** * solana_token: the wallet key-derivation helper (wallet.js) and the
      package's module wiring, embedded in Rocq.

    Layout:
    - [JS]       JavaScript strings as sequences of UTF-16 code units, with
                 [trim], [split(/\s+/g)] and [join];
    - [Modules]  a small object heap with prototype chains and the loading
                 of a file by Node or after a transform, enough to evaluate
                 the exports of wallet.js, spl.js and the package entry file;
    - [Libs]     the interface of the third-party primitives the wallet calls
                 (bip39, ed25519-hd-key, tweetnacl, @solana/web3.js);
    - [WalletJs] the [Wallet] and [WalletFactory] classes, in a state and
                 exception monad over the fields of [this];
    - [Sim]      one executable instance of [Libs], used to run the wallet
                 on concrete inputs;
    - [SplJs]    the parts of the [Spl] class that make no network call. *)

From Stdlib Require Import NArith List String Ascii Bool Lia.
From Stdlib Require Import Strings.Byte.
From stdpp Require Import base option list strings gmap.

Open Scope N_scope.

(* ===================================================================== *)
(** ** JavaScript strings *)
(* ===================================================================== *)

Module JS.

(** A JavaScript string is a finite sequence of 16-bit code units. *)
Definition jsstring := list N.

(** The code units of an ASCII literal. *)
Definition js (s : string) : jsstring :=
  map N_of_ascii (list_ascii_of_string s).

(** ECMAScript [WhiteSpace] and [LineTerminator] code points: what
    [String.prototype.trim] strips and what [\s] matches. *)
Definition isWhiteSpace (c : N) : bool :=
  match c with
  | 9 | 10 | 11 | 12 | 13 | 32 | 160 | 5760
  | 8232 | 8233 | 8239 | 8287 | 12288 | 65279 => true
  | _ => (8192 <=? c) && (c <=? 8202)
  end.

(** ASCII upper-case letters, the code units [toLowerCase] would change in
    an English phrase. *)
Definition isUpperCase (c : N) : bool := (65 <=? c) && (c <=? 90).

Fixpoint trimStart (s : jsstring) : jsstring :=
  match s with
  | [] => []
  | c :: s' => if isWhiteSpace c then trimStart s' else s
  end.

Fixpoint trimEnd (s : jsstring) : jsstring :=
  match s with
  | [] => []
  | c :: s' =>
      match trimEnd s' with
      | [] => if isWhiteSpace c then [] else [c]
      | t => c :: t
      end
  end.

(** [s.trim()] *)
Definition trim (s : jsstring) : jsstring := trimEnd (trimStart s).

(** [s.split(/\s+/g)] : the pieces between maximal runs of white space.
    [in_sep] records that the previous code unit belonged to a separator
    already. A leading or trailing separator yields an empty first or last
    piece, and the empty string splits into one empty piece. *)
Fixpoint split_ws_from (in_sep : bool) (s : jsstring) : list jsstring :=
  match s with
  | [] => [[]]
  | c :: s' =>
      if isWhiteSpace c then
        if in_sep then split_ws_from true s' else [] :: split_ws_from true s'
      else
        match split_ws_from false s' with
        | w :: ws => (c :: w) :: ws
        | [] => [[c]]
        end
  end.

Definition split_ws (s : jsstring) : list jsstring := split_ws_from false s.

(** [parts.join(sep)] *)
Fixpoint join (sep : jsstring) (parts : list jsstring) : jsstring :=
  match parts with
  | [] => []
  | p :: ps =>
      match ps with
      | [] => p
      | _ :: _ => p ++ sep ++ join sep ps
      end
  end.

(** What [split] prepends a word to: the first piece of what follows. *)
Definition onto_first (w : jsstring) (pieces : list jsstring) : list jsstring :=
  match pieces with
  | p :: ps => (w ++ p) :: ps
  | [] => [w]
  end.

(** A word: at least one code unit, none of them white space. *)
Definition is_word (w : jsstring) : Prop :=
  w <> [] /\ Forall (fun c => isWhiteSpace c = false) w.

Definition lowercase (s : jsstring) : bool :=
  forallb (fun c => negb (isUpperCase c)) s.

(** The words of a phrase: the non-empty pieces between its runs of white
    space, as they stand. *)
Definition words (s : jsstring) : list jsstring :=
  List.filter (fun w => match w with [] => false | _ :: _ => true end) (split_ws s).

(** The code units of a string outside white space, in order. *)
Definition without_white_space (s : jsstring) : jsstring :=
  List.filter (fun c => negb (isWhiteSpace c)) s.

(** Words separated by one U+0020 each, nothing before or after. *)
Definition single_spaced_words (s : jsstring) : Prop :=
  exists ws, s = join (js " ") ws /\ Forall is_word ws.

(** The same with every word in lower case, as the specification phrases
    the result of normalization. *)
Definition single_spaced_lowercase_words (s : jsstring) : Prop :=
  exists ws, s = join (js " ") ws /\ Forall is_word ws /\
             Forall (fun w => lowercase w = true) ws.

(** The shape BIP-39 gives a phrase for [strength] bits of entropy: one
    word per 11 bits of entropy plus checksum, the checksum being one bit
    per 32 bits of entropy, the words joined by single spaces. *)
Definition bip39_phrase (strength : N) (m : jsstring) : Prop :=
  exists ws, m = join (js " ") ws /\ Forall is_word ws /\
             length ws = N.to_nat ((strength + strength / 32) / 11).

End JS.

Import JS.

(** Abrupt or normal completion of a call. *)
Inductive completion (A : Type) :=
| Return (a : A)
| Throw (e : string).
Arguments Return {A} a.
Arguments Throw {A} e.

(* ===================================================================== *)
(** ** CommonJS modules over a small object heap *)
(* ===================================================================== *)

Module Modules.

Definition addr := nat.

Inductive value :=
| VUndefined
| VNull
| VString (s : string)
| VFunction (name : string)      (* a function or class, by name *)
| VAccessor (name : string)      (* what reading an accessor property yields *)
| VObject (a : addr).

Record object := { props : gmap string value; proto : option addr }.

Record store := { heap : gmap addr object; next : addr }.

Definition alloc (o : object) (st : store) : addr * store :=
  (next st, {| heap := <[next st := o]> (heap st); next := S (next st) |}).

(** [obj.k = v] on the object at [a]. *)
Definition put (a : addr) (k : string) (v : value) (st : store) : store :=
  match heap st !! a with
  | Some o =>
      {| heap := <[a := {| props := <[k := v]> (props o); proto := proto o |}]> (heap st);
         next := next st |}
  | None => st
  end.

(** Ordinary [[Get]]: own properties first, then the prototype chain;
    [undefined] when the chain ends. The chain is at most as long as the
    heap is large, which bounds the walk. *)
Fixpoint get_from (fuel : nat) (h : gmap addr object) (a : addr) (k : string) : value :=
  match fuel with
  | O => VUndefined
  | S fuel' =>
      match h !! a with
      | None => VUndefined
      | Some o =>
          match props o !! k with
          | Some v => v
          | None =>
              match proto o with
              | Some p => get_from fuel' h p k
              | None => VUndefined
              end
          end
      end
  end.

(** [v.k] for a value [v]; only objects carry properties here. *)
Definition get (st : store) (v : value) (k : string) : value :=
  match v with
  | VObject a => get_from (S (next st)) (heap st) a k
  | _ => VUndefined
  end.

Definition methods (names : list string) : gmap string value :=
  list_to_map (map (fun n => (n, VFunction n)) names).

(** [Object.prototype], at address 0 of the initial store. *)
Definition Object_prototype : object :=
  {| props := methods ["constructor"; "__defineGetter__"; "__defineSetter__";
                       "hasOwnProperty"; "__lookupGetter__"; "__lookupSetter__";
                       "isPrototypeOf"; "propertyIsEnumerable"; "toString";
                       "valueOf"; "toLocaleString"];
     proto := None |}.

Definition initial_store : store :=
  {| heap := {[ 0%nat := Object_prototype ]}; next := 1%nat |}.

(** The state of a module while its body runs: the object the free variable
    [exports] is bound to, and the current value of [module.exports] (what
    [require] returns). They start out as the same object. *)
Record module := { exports_var : addr; module_exports : value }.

Definition new_module (st : store) : module * store :=
  let '(a, st) := alloc {| props := ∅; proto := Some 0%nat |} st in
  ({| exports_var := a; module_exports := VObject a |}, st).

(** How Node, or a build step, takes a file of the package. *)
Inductive loading :=
| Node_CommonJS   (* by Node as it is, the file being a CommonJS module *)
| Node_ESModule   (* by Node as it is, the file being an ES module *)
| Transformed.    (* after an ES-to-CommonJS transform of the file *)

(** What loading needs to know of a file: whether its top level has ES
    [import] or [export] declarations, whether it calls [require], and
    what its body does when run as a CommonJS module body, an ES [export]
    declaration being read as an assignment to a property of [exports]. *)
Record source (A : Type) := {
  es_declarations : bool;
  calls_require : bool;
  body : store -> completion A * store
}.
Arguments es_declarations {A} _.
Arguments calls_require {A} _.
Arguments body {A} _ _.

(** Loading a file. Node compiles a CommonJS module as a script, where an
    [export] declaration is a syntax error, raised before any statement
    runs; in an ES module [require] is not bound, so the first call of it
    throws. Only a transformed file runs its body whatever it contains. *)
Definition load {A} (how : loading) (src : source A) (st : store)
  : completion A * store :=
  match how with
  | Node_CommonJS =>
      if es_declarations src
      then (Throw "SyntaxError: Unexpected token 'export'", st)
      else body src st
  | Node_ESModule =>
      if calls_require src
      then (Throw "ReferenceError: require is not defined in ES module scope", st)
      else body src st
  | Transformed => body src st
  end.

(** The body of wallet.js: [export class Wallet] (line 9), then
    [class WalletFactory], then [module.exports = new WalletFactory()],
    which rebinds [module.exports]. *)
Definition wallet_body (st : store) : completion value * store :=
  let '(m, st) := new_module st in
  (* export class Wallet { ... } *)
  let st := put (exports_var m) "Wallet" (VFunction "Wallet") st in
  (* class WalletFactory { ... } *)
  let '(factory_proto, st) :=
    alloc {| props := <["derivationPaths" := VAccessor "derivationPaths"]>
                        (methods ["constructor"; "create"; "restoreFromMnemonic";
                                  "restoreFromSeed"; "restoreFromPrivateKey"]);
             proto := Some 0%nat |} st in
  (* module.exports = new WalletFactory(); *)
  let '(paths, st) :=
    alloc {| props := {[ "deprecated" := VString "m/501'/0'/0/0";
                         "bip44" := VString "m/44'/501'/0'";
                         "bip44Change" := VString "m/44'/501'/0'/0'" ]};
             proto := Some 0%nat |} st in
  let '(inst, st) :=
    alloc {| props := {[ "_derivationPaths" := VObject paths ]};
             proto := Some factory_proto |} st in
  let m := {| exports_var := exports_var m; module_exports := VObject inst |} in
  (Return (module_exports m), st).

(** wallet.js: it calls [require] on its first line and declares
    [export class Wallet] on line 9. *)
Definition wallet_js (how : loading) (st : store) : completion value * store :=
  load how {| es_declarations := true; calls_require := true; body := wallet_body |} st.

(** [const { k } = v]: destructuring [undefined] or [null] throws. *)
Definition destructure (st : store) (v : value) (k : string) : completion value :=
  match v with
  | VUndefined | VNull => Throw "TypeError: Cannot destructure"
  | _ => Return (get st v k)
  end.

(** The body of spl.js, as far as its bindings go: it destructures
    [Wallet] out of [require("./wallet")], whose completion is [wallet],
    and ends with [module.exports = new SplFactory()]. Returns the [Wallet]
    binding next to the module's exports. *)
Definition spl_body (wallet : completion value) (st : store)
  : completion (value * value) * store :=
  let '(m, st) := new_module st in
  (* const { Wallet } = require("./wallet"); *)
  match wallet with
  | Throw e => (Throw e, st)
  | Return w =>
      match destructure st w "Wallet" with
      | Throw e => (Throw e, st)
      | Return Wallet =>
          (* class Spl { ... }  class SplFactory { ... } *)
          let '(factory_proto, st) :=
            alloc {| props := <["clusters" := VAccessor "clusters"]>
                                (methods ["constructor"; "create"]);
                     proto := Some 0%nat |} st in
          (* module.exports = new SplFactory(); *)
          let '(inst, st) := alloc {| props := ∅; proto := Some factory_proto |} st in
          (Return (Wallet, VObject inst), st)
      end
  end.

Definition spl_js (how : loading) (wallet : completion value) (st : store)
  : completion (value * value) * store :=
  load how {| es_declarations := false; calls_require := true;
              body := spl_body wallet |} st.

(** The body of the package entry file. Node caches modules, so wallet.js
    runs once and both [require("./wallet")] calls see the same completion.
    Returns the entry file's [module.exports] and spl.js's [Wallet]
    binding. *)
Definition index_body (how : loading) (st : store)
  : completion (value * value) * store :=
  let '(m, st) := new_module st in
  (* const w = require("./wallet"); *)
  match wallet_js how st with
  | (Throw e, st) => (Throw e, st)
  | (Return w, st) =>
      (* const s = require("./spl"); *)
      match spl_js how (Return w) st with
      | (Throw e, st) => (Throw e, st)
      | (Return (spl_Wallet, s), st) =>
          (* module.exports = { Wallet: w.Wallet, walletFactory: w.walletFactory,
                                Spl: s.Spl, splFactory: s.splFactory }; *)
          let '(e, st) :=
            alloc {| props := {[ "Wallet" := get st w "Wallet";
                                 "walletFactory" := get st w "walletFactory";
                                 "Spl" := get st s "Spl";
                                 "splFactory" := get st s "splFactory" ]};
                     proto := Some 0%nat |} st in
          (Return (VObject e, spl_Wallet), st)
      end
  end.

Definition index_js (how : loading) (st : store)
  : completion (value * value) * store :=
  load how {| es_declarations := false; calls_require := true;
              body := index_body how |} st.

(** Own property [k] of the object a value refers to. *)
Definition own (st : store) (v : value) (k : string) : option value :=
  match v with
  | VObject a => o ← heap st !! a; props o !! k
  | _ => None
  end.


End Modules.

(* ===================================================================== *)
(** ** Third-party primitives *)
(* ===================================================================== *)

Definition bytes := list byte.

(** What [derivePath] of ed25519-hd-key returns. *)
Record Keys := { key : bytes; chainCode : bytes }.

(** What [nacl.sign.keyPair.fromSeed] returns. *)
Record SignKeyPair := { nacl_publicKey : bytes; nacl_secretKey : bytes }.

(** A [Keypair] of @solana/web3.js, read through its two accessors. *)
Record Keypair := { publicKey : bytes; secretKey : bytes }.

(** The calls wallet.js makes into its dependencies. None of them is part of
    the repository, so the wallet is modelled over an arbitrary
    implementation of this interface. A [null] or [undefined] argument is
    [None]. [bip39_generateMnemonic] receives, next to the strength, the
    bytes its random source hands out for this call. *)
Class Libs := {
  bip39_generateMnemonic : N -> bytes -> jsstring;
  bip39_validateMnemonic : jsstring -> bool;
  bip39_mnemonicToSeedSync : jsstring -> option jsstring -> bytes;
  derivePath : option jsstring -> option jsstring -> completion Keys;
  nacl_sign_keyPair_fromSeed : bytes -> completion SignKeyPair;
  Keypair_fromSecretKey : bytes -> completion Keypair;
  PublicKey_toBase58 : bytes -> jsstring
}.

(** [Buffer.from(b).toString("hex")] *)
Definition hex_digit (d : N) : N := if d <? 10 then 48 + d else 87 + d.

Definition hex_of_byte (b : byte) : jsstring :=
  [hex_digit (Byte.to_N b / 16); hex_digit (Byte.to_N b mod 16)].

Definition toString_hex (b : bytes) : jsstring := flat_map hex_of_byte b.

(** [Uint8Array.prototype.toString]: the elements in decimal, joined by
    commas. *)
Definition decimal_of_byte (b : byte) : jsstring :=
  let n := Byte.to_N b in
  if n <? 10 then [48 + n]
  else if n <? 100 then [48 + n / 10; 48 + n mod 10]
  else [48 + n / 100; 48 + (n / 10) mod 10; 48 + n mod 10].

Definition Uint8Array_toString (b : bytes) : jsstring :=
  join (js ",") (map decimal_of_byte b).

(** [a || b] on values that are a string, [null] or [undefined]: the empty
    string is falsy too. *)
Definition js_or (a b : option jsstring) : option jsstring :=
  match a with
  | Some (_ :: _) => a
  | _ => b
  end.

(** The paths ed25519-hd-key derives along, its [pathRegex]
    [^m(\/[0-9]+')+$]: [m], then one or more segments of a slash, decimal
    digits and an apostrophe. Hardened segments only: the ed25519 form of
    SLIP-0010 has no other child keys. *)
Inductive path_state := AfterM | AfterSlash | InDigits | AfterQuote.

Definition isDigit (c : N) : bool := (48 <=? c) && (c <=? 57).

Fixpoint hardened_from (st : path_state) (s : jsstring) : bool :=
  match s with
  | [] => match st with AfterQuote => true | _ => false end
  | c :: s' =>
      match st with
      | AfterM | AfterQuote => (c =? 47) && hardened_from AfterSlash s'
      | AfterSlash => isDigit c && hardened_from InDigits s'
      | InDigits =>
          if isDigit c then hardened_from InDigits s'
          else (c =? 39) && hardened_from AfterQuote s'
      end
  end.

Definition hardened_path (path : jsstring) : bool :=
  match path with
  | 109 :: s => hardened_from AfterM s
  | _ => false
  end.

(* ===================================================================== *)
(** ** wallet.js *)
(* ===================================================================== *)

Module WalletJs.

(** The fields of a [Wallet] instance. *)
Record Wallet := {
  _derivedPath : option jsstring;
  _mnemonic : option jsstring;
  _seed : option bytes;
  _seedHex : option jsstring;
  _keypair : option Keypair;
  _derivationPaths : gmap string jsstring
}.

(** A method body: it runs on [this], may assign its fields, and completes
    normally or throws. The fields assigned before a throw stay assigned. *)
Definition M (A : Type) : Type := Wallet -> completion A * Wallet.

Definition ret {A} (a : A) : M A := fun w => (Return a, w).

Definition bind {A B} (c : M A) (k : A -> M B) : M B :=
  fun w =>
    match c w with
    | (Return a, w') => k a w'
    | (Throw e, w') => (Throw e, w')
    end.

(** A call into a library: it does not see [this]. *)
Definition call {A} (r : completion A) : M A := fun w => (r, w).

(** Reading a field of [this]. *)
Definition this {A} (field : Wallet -> A) : M A := fun w => (Return (field w), w).

Declare Scope wallet_scope.
Delimit Scope wallet_scope with wallet.
Notation "x <- c ;; k" := (bind c (fun x => k))
  (at level 100, c at next level, right associativity) : wallet_scope.
Notation "c ;; k" := (bind c (fun _ => k))
  (at level 100, right associativity) : wallet_scope.

Definition set_derivedPath (v : option jsstring) : M unit := fun w =>
  (Return tt, {| _derivedPath := v; _mnemonic := _mnemonic w; _seed := _seed w;
                 _seedHex := _seedHex w; _keypair := _keypair w;
                 _derivationPaths := _derivationPaths w |}).

Definition set_mnemonic (v : option jsstring) : M unit := fun w =>
  (Return tt, {| _derivedPath := _derivedPath w; _mnemonic := v; _seed := _seed w;
                 _seedHex := _seedHex w; _keypair := _keypair w;
                 _derivationPaths := _derivationPaths w |}).

Definition set_seed (v : option bytes) : M unit := fun w =>
  (Return tt, {| _derivedPath := _derivedPath w; _mnemonic := _mnemonic w; _seed := v;
                 _seedHex := _seedHex w; _keypair := _keypair w;
                 _derivationPaths := _derivationPaths w |}).

Definition set_seedHex (v : option jsstring) : M unit := fun w =>
  (Return tt, {| _derivedPath := _derivedPath w; _mnemonic := _mnemonic w; _seed := _seed w;
                 _seedHex := v; _keypair := _keypair w;
                 _derivationPaths := _derivationPaths w |}).

Definition set_keypair (v : option Keypair) : M unit := fun w =>
  (Return tt, {| _derivedPath := _derivedPath w; _mnemonic := _mnemonic w; _seed := _seed w;
                 _seedHex := _seedHex w; _keypair := v;
                 _derivationPaths := _derivationPaths w |}).

(** The table both constructors build. *)
Definition standard_paths : gmap string jsstring :=
  {[ "deprecated" := js "m/501'/0'/0/0";
     "bip44" := js "m/44'/501'/0'";
     "bip44Change" := js "m/44'/501'/0'/0'" ]}.

(** [new Wallet()] *)
Definition new_Wallet : Wallet :=
  {| _derivedPath := None; _mnemonic := None; _seed := None; _seedHex := None;
     _keypair := None; _derivationPaths := standard_paths |}.

(** What the JSON accessor returns. *)
Record WalletJson := {
  json_mnemonic : option jsstring;
  json_publicKey : option jsstring;
  json_bn : option bytes;
  json_privateKey : option jsstring
}.

Section Wallet.
Context {L : Libs}.
Open Scope wallet_scope.

(** [mnemonic.trim().split(/\s+/g).join(" ")]; the three helpers do not
    touch [this]. In [create] and [restoreFromMnemonic] below, the mnemonic
    handed to [_mnemonicToSeedHex] is the value just stored in [_mnemonic],
    and the seed handed to [fromSeed] the one just stored in [_seed]. *)
Definition _normalizeMnemonic (mnemonic : jsstring) : jsstring :=
  join (js " ") (split_ws (trim mnemonic)).

Definition _generateMnemonic (entropy : bytes) : jsstring :=
  bip39_generateMnemonic 256 entropy.

Definition _mnemonicToSeedHex (mnemonic : jsstring) (pass : option jsstring)
  : option jsstring :=
  if negb (bip39_validateMnemonic mnemonic) then None
  else
    let seed := bip39_mnemonicToSeedSync mnemonic pass in
    Some (toString_hex seed).

Definition create (pass derivedPath : option jsstring) (entropy : bytes) : M unit :=
  paths <- this _derivationPaths ;;
  set_derivedPath (js_or derivedPath (paths !! "bip44Change")) ;;
  set_mnemonic (Some (_generateMnemonic entropy)) ;;
  set_seedHex (_mnemonicToSeedHex (_generateMnemonic entropy) pass) ;;
  path <- this _derivedPath ;;
  seedHex <- this _seedHex ;;
  keys <- call (derivePath path seedHex) ;;
  set_seed (Some (key keys)) ;;
  pair <- call (nacl_sign_keyPair_fromSeed (key keys)) ;;
  kp <- call (Keypair_fromSecretKey (nacl_secretKey pair)) ;;
  set_keypair (Some kp).

Definition restoreFromMnemonic (mnemonic : jsstring) (pass derivedPath : option jsstring)
  : M unit :=
  paths <- this _derivationPaths ;;
  set_derivedPath (js_or derivedPath (paths !! "bip44Change")) ;;
  set_mnemonic (Some (_normalizeMnemonic mnemonic)) ;;
  set_seedHex (_mnemonicToSeedHex (_normalizeMnemonic mnemonic) pass) ;;
  path <- this _derivedPath ;;
  seedHex <- this _seedHex ;;
  keys <- call (derivePath path seedHex) ;;
  set_seed (Some (key keys)) ;;
  pair <- call (nacl_sign_keyPair_fromSeed (key keys)) ;;
  kp <- call (Keypair_fromSecretKey (nacl_secretKey pair)) ;;
  set_keypair (Some kp).

(** [restoreFromMnemonic] called with a phrase that is not a string
    ([null], [undefined], a number, ...): the path is recorded, then
    [mnemonic.trim()] inside [_normalizeMnemonic] throws, before anything is
    assigned to [_mnemonic]. *)
Definition restoreFromMnemonic_not_string (pass derivedPath : option jsstring) : M unit :=
  paths <- this _derivationPaths ;;
  set_derivedPath (js_or derivedPath (paths !! "bip44Change")) ;;
  call (Throw "TypeError: mnemonic.trim is not a function").

Definition restoreFromSeed (seed : bytes) : M unit :=
  set_derivedPath None ;;
  set_mnemonic None ;;
  set_seed (Some seed) ;;
  set_seedHex (Some (toString_hex seed)) ;;
  pair <- call (nacl_sign_keyPair_fromSeed seed) ;;
  kp <- call (Keypair_fromSecretKey (nacl_secretKey pair)) ;;
  set_keypair (Some kp).

Definition restoreFromPrivateKey (privateKey : bytes) : M unit :=
  set_derivedPath None ;;
  set_mnemonic None ;;
  set_seed None ;;
  set_seedHex None ;;
  kp <- call (Keypair_fromSecretKey privateKey) ;;
  set_keypair (Some kp).

(** The accessors. *)
Definition mnemonic : M (option jsstring) := this _mnemonic.

Definition seed : M (option bytes) := this _seed.

Definition get_publicKey : M (option bytes) :=
  kp <- this _keypair ;; ret (option_map publicKey kp).

Definition privateKey : M (option bytes) :=
  kp <- this _keypair ;; ret (option_map secretKey kp).

Definition publicKeyString : M (option jsstring) :=
  kp <- this _keypair ;;
  ret (option_map (fun k => PublicKey_toBase58 (publicKey k)) kp).

Definition privateKeyString : M (option jsstring) :=
  kp <- this _keypair ;;
  ret (option_map (fun k => js "[" ++ Uint8Array_toString (secretKey k) ++ js "]") kp).

Definition keypair : M (option Keypair) := this _keypair.

Definition derivationPaths : M (gmap string jsstring) := this _derivationPaths.

Definition json : M WalletJson :=
  m <- this _mnemonic ;;
  pks <- publicKeyString ;;
  pk <- get_publicKey ;;
  sks <- privateKeyString ;;
  ret {| json_mnemonic := m; json_publicKey := pks; json_bn := pk;
         json_privateKey := sks |}.

(** Every member of a [Wallet] instance a caller can invoke. *)
Inductive member :=
| Create (pass derivedPath : option jsstring) (entropy : bytes)
| RestoreFromMnemonic (m : jsstring) (pass derivedPath : option jsstring)
| RestoreFromMnemonicNotString (pass derivedPath : option jsstring)
| RestoreFromSeed (s : bytes)
| RestoreFromPrivateKey (k : bytes)
| GetJson | GetMnemonic | GetSeed | GetPublicKey | GetPrivateKey
| GetPublicKeyString | GetPrivateKeyString | GetKeypair | GetDerivationPaths
| NormalizeMnemonic (m : jsstring)
| GenerateMnemonic (entropy : bytes)
| MnemonicToSeedHex (m : jsstring) (pass : option jsstring).

Definition is_construction (c : member) : bool :=
  match c with
  | Create _ _ _ | RestoreFromMnemonic _ _ _ | RestoreFromMnemonicNotString _ _
  | RestoreFromSeed _ | RestoreFromPrivateKey _ => true
  | _ => false
  end.

(** The instance after the member was invoked on it, whether it returned
    or threw. *)
Definition invoke (c : member) (w : Wallet) : Wallet :=
  match c with
  | Create p d e => snd (create p d e w)
  | RestoreFromMnemonic m p d => snd (restoreFromMnemonic m p d w)
  | RestoreFromMnemonicNotString p d => snd (restoreFromMnemonic_not_string p d w)
  | RestoreFromSeed s => snd (restoreFromSeed s w)
  | RestoreFromPrivateKey k => snd (restoreFromPrivateKey k w)
  | GetJson => snd (json w)
  | GetMnemonic => snd (mnemonic w)
  | GetSeed => snd (seed w)
  | GetPublicKey => snd (get_publicKey w)
  | GetPrivateKey => snd (privateKey w)
  | GetPublicKeyString => snd (publicKeyString w)
  | GetPrivateKeyString => snd (privateKeyString w)
  | GetKeypair => snd (keypair w)
  | GetDerivationPaths => snd (derivationPaths w)
  | NormalizeMnemonic m => snd (ret (_normalizeMnemonic m) w)
  | GenerateMnemonic e => snd (ret (_generateMnemonic e) w)
  | MnemonicToSeedHex m p => snd (ret (_mnemonicToSeedHex m p) w)
  end.

(** The instances a program can hold: a fresh one, and whatever a member
    call leaves behind. *)
Inductive reachable : Wallet -> Prop :=
| reach_new : reachable new_Wallet
| reach_invoke c w : reachable w -> reachable (invoke c w).

(** The table of named paths as the specification lists it. *)
Definition spec_derivation_paths : gmap string jsstring :=
  {[ "legacy" := js "m/501'/0'/0/0";
     "bip44" := js "m/44'/501'/0'";
     "bip44Change" := js "m/44'/501'/0'/0'" ]}.

(** What makes up a wallet's identity. *)
Definition identity (w : Wallet)
  : option Keypair * option jsstring * option bytes * option jsstring :=
  (_keypair w, _mnemonic w, _seed w, _derivedPath w).

(** [new Wallet().method(...)]: the caller gets the instance only when the
    method returns. *)
Definition on_new_Wallet (body : M unit) : completion Wallet :=
  match body new_Wallet with
  | (Return _, w) => Return w
  | (Throw e, _) => Throw e
  end.

(** The [WalletFactory] singleton that wallet.js exports. *)
Definition WalletFactory_derivationPaths : gmap string jsstring := standard_paths.

Definition WalletFactory_create (pass derivedPath : option jsstring) (entropy : bytes)
  : completion Wallet :=
  on_new_Wallet (create pass derivedPath entropy).

Definition WalletFactory_restoreFromMnemonic
  (mnemonic : jsstring) (pass derivedPath : option jsstring) : completion Wallet :=
  on_new_Wallet (restoreFromMnemonic mnemonic pass derivedPath).

Definition WalletFactory_restoreFromSeed (seed : bytes) : completion Wallet :=
  on_new_Wallet (restoreFromSeed seed).

Definition WalletFactory_restoreFromPrivateKey (privateKey : bytes) : completion Wallet :=
  on_new_Wallet (restoreFromPrivateKey privateKey).

(** The child-key derivation of a run [r] of [create] or
    [restoreFromMnemonic] went along [path]: where [derivePath] returns for
    [path] and the stored hex seed, its key is the wallet's seed, and where
    it throws, so did the method. *)
Definition derived_along (path : jsstring) (r : completion unit * Wallet) : Prop :=
  match derivePath (Some path) (_seedHex (snd r)) with
  | Return keys => _seed (snd r) = Some (key keys)
  | Throw e => fst r = Throw e
  end.

(** What the theorems below assume of the primitives, each where it is
    needed and nowhere else. *)

(** bip39: a generated phrase has the BIP-39 shape for its strength. *)
Definition generateMnemonic_bip39 : Prop :=
  forall strength entropy,
    strength mod 32 = 0 -> 128 <= strength <= 256 ->
    bip39_phrase strength (bip39_generateMnemonic strength entropy).

(** ed25519-hd-key: no master key without a seed. *)
Definition derivePath_rejects_missing_seed : Prop :=
  forall path, exists e, derivePath path None = Throw e.

(** ed25519-hd-key: a path outside [pathRegex] is refused, whatever the
    seed. *)
Definition derivePath_hardened_only : Prop :=
  forall path seedHex,
    hardened_path path = false -> exists e, derivePath (Some path) seedHex = Throw e.

(** ed25519-hd-key: over one seed, the account path and its change path
    lead to different keys. *)
Definition derivePath_separates_bip44_paths : Prop :=
  forall seedHex k1 k2,
    derivePath (Some (js "m/44'/501'/0'")) (Some seedHex) = Return k1 ->
    derivePath (Some (js "m/44'/501'/0'/0'")) (Some seedHex) = Return k2 ->
    key k1 <> key k2.

(** tweetnacl: a seed has 32 bytes, and the secret key starts with them. *)
Definition fromSeed_starts_with_seed : Prop :=
  forall s pair,
    nacl_sign_keyPair_fromSeed s = Return pair ->
    length s = 32%nat /\ take 32 (nacl_secretKey pair) = s.

(** web3.js: a keypair made from a secret key holds these very bytes. *)
Definition fromSecretKey_keeps_bytes : Prop :=
  forall k kp, Keypair_fromSecretKey k = Return kp -> secretKey kp = k.

(** An instance one construction call of the factory has handed out. *)
Inductive constructed : Wallet -> Prop :=
| constructed_create pass d entropy w :
    WalletFactory_create pass d entropy = Return w -> constructed w
| constructed_mnemonic m pass d w :
    WalletFactory_restoreFromMnemonic m pass d = Return w -> constructed w
| constructed_seed s w :
    WalletFactory_restoreFromSeed s = Return w -> constructed w
| constructed_privateKey k w :
    WalletFactory_restoreFromPrivateKey k = Return w -> constructed w.

(** Immutability as the specification words it: nothing one can invoke on
    a constructed instance changes its identity. *)
Definition immutable_after_construction : Prop :=
  forall w c, constructed w -> identity (invoke c w) = identity w.

End Wallet.

End WalletJs.

(* ===================================================================== *)
(** ** An executable instance of the primitives *)
(* ===================================================================== *)

(** Stand-ins with the shape of the real primitives and none of their
    cryptography, so that the wallet can be run on concrete inputs. *)
Module Sim.

Definition byte_of_N (n : N) : byte := default x00 (Byte.of_N (n mod 256)).

Definition bytes_of (s : jsstring) : bytes := map byte_of_N s.

Definition words_for (strength : N) : nat :=
  N.to_nat ((strength + strength / 32) / 11).

Definition word_of (b : byte) : jsstring :=
  if N.even (Byte.to_N b) then js "abandon" else js "zoo".

Definition generateMnemonic (strength : N) (entropy : bytes) : jsstring :=
  join (js " ")
    (map word_of (take (words_for strength) (entropy ++ repeat x00 (words_for strength)))).

Definition validateMnemonic (m : jsstring) : bool :=
  let ws := split_ws m in
  bool_decide (m = join (js " ") ws)
  && forallb (fun w => bool_decide (w ∈ [js "abandon"; js "zoo"])) ws
  && bool_decide (length ws ∈ [12; 15; 18; 21; 24]%nat).

Definition mnemonicToSeedSync (m : jsstring) (pass : option jsstring) : bytes :=
  bytes_of (m ++ js "mnemonic" ++ default [] pass).

Definition derive (path seedHex : option jsstring) : completion Keys :=
  match path with
  | Some p =>
      if hardened_path p then
        match seedHex with
        | Some h =>
            Return {| key := take 32 (byte_of_N (N.of_nat (length p))
                                        :: bytes_of p ++ bytes_of h ++ repeat x00 32);
                      chainCode := repeat x00 32 |}
        | None => Throw "TypeError: the seed must be a string"
        end
      else Throw "Invalid derivation path"
  | None => Throw "Invalid derivation path"
  end.

Definition public_of (seed : bytes) : bytes := rev seed.

Definition fromSeed (seed : bytes) : completion SignKeyPair :=
  if (length seed =? 32)%nat then
    Return {| nacl_publicKey := public_of seed;
              nacl_secretKey := seed ++ public_of seed |}
  else Throw "bad seed size".

Definition fromSecretKey (sk : bytes) : completion Keypair :=
  if (length sk =? 64)%nat then
    if bool_decide (map Byte.to_N (drop 32 sk) = map Byte.to_N (public_of (take 32 sk)))
    then Return {| publicKey := drop 32 sk; secretKey := sk |}
    else Throw "provided secretKey is invalid"
  else Throw "bad secret key size".

#[export] Instance libs : Libs := {|
  bip39_generateMnemonic := generateMnemonic;
  bip39_validateMnemonic := validateMnemonic;
  bip39_mnemonicToSeedSync := mnemonicToSeedSync;
  derivePath := derive;
  nacl_sign_keyPair_fromSeed := fromSeed;
  Keypair_fromSecretKey := fromSecretKey;
  PublicKey_toBase58 := toString_hex
|}.

(** Twenty-four bytes of "entropy" and a secret key in the accepted format. *)
Definition entropy0 : bytes :=
  [x01; x02; x03; x04; x05; x06; x07; x08; x09; x0a; x0b; x0c;
   x0d; x0e; x0f; x10; x11; x12; x13; x14; x15; x16; x17; x18].

Definition seed0 : bytes := repeat x07 31 ++ [x2a].

Definition secretKey0 : bytes := seed0 ++ public_of seed0.

Definition secretKey1 : bytes := public_of seed0 ++ seed0.

End Sim.

(* ===================================================================== *)
(** ** spl.js: the [Spl] class, as far as it is free of network calls *)
(* ===================================================================== *)

Module SplJs.
Import Modules.

Definition accessors (names : list string) : gmap string value :=
  list_to_map (map (fun n => (n, VAccessor n)) names).

(** The accessors and the methods of [class Spl], in source order. The two
    [static] fields are not among them: they are properties of the
    constructor. *)
Definition Spl_accessors : list string :=
  ["connection"; "cluster"; "clusters"; "clusterApiUrls"; "authorityTypes"].

Definition Spl_methods : list string :=
  ["constructor"; "connect"; "getPublicKey"; "getKeypair"; "getSomeSol";
   "generateKeypair"; "beginTransaction"; "endTransaction"; "transferSol";
   "transferToken"; "rawTransferToken"; "transferData"; "getAccountLink";
   "getTransactionLink"; "getChartLink"; "sleep"; "accountExists";
   "tokenAccountExists"; "getTokenAccountInfo"; "getOrCreateTokenAccount";
   "createToken"; "getTokenInfo"; "getSolBalance"; "getTokenAccountBalance";
   "mint"; "rawMint"; "burn"; "closeTokenAccount"; "setAuthorityOfTokenAccount";
   "approve"; "revoke"; "getTransactionCost"; "getWrappedSolToken";
   "getWrappedSolAccount"; "getValidators"; "createStakeAccount";
   "getStakeAccountBalance"; "delegateStack"; "deactivateStack"; "withdrawStack";
   "createNft"; "arweaveConnect"; "createArweaveWallet";
   "getArweaveWalletPublicKey"; "getArweaveWalletBalance";
   "getArweaveWalletLastTransaction"; "arweaveTransfer";
   "getArweaveTransactionStatus"; "getArweaveTransactionInfo";
   "getArweaveTransactionData"; "uploadData"; "uploadMetadata"; "uploadFile";
   "mintNFT"; "mintAndUploadNft"; "getNftAccountInfo"; "getTokens"].

(** Where the class lives once its declaration has run. *)
Record Spl_class := { Spl_constructor : addr; Spl_prototype : addr }.

(** [class Spl { static _clusters = ...; static _clusterApiUrls = ...; ... }] *)
Definition class_Spl (st : store) : Spl_class * store :=
  let '(prototype, st) :=
    alloc {| props := accessors Spl_accessors ∪ methods Spl_methods;
             proto := Some 0%nat |} st in
  let '(clusters, st) :=
    alloc {| props := {[ "dev" := VString "devnet";
                         "test" := VString "testnet";
                         "main" := VString "mainnet-beta" ]};
             proto := Some 0%nat |} st in
  let '(urls, st) :=
    alloc {| props := {[ "devnet" := VString "https://api.devnet.solana.com";
                         "testnet" := VString "https://api.testnet.solana.com";
                         "mainnet-beta" := VString "https://api.mainnet-beta.solana.com" ]};
             proto := Some 0%nat |} st in
  let '(ctor, st) :=
    alloc {| props := {[ "prototype" := VObject prototype;
                         "_clusters" := VObject clusters;
                         "_clusterApiUrls" := VObject urls ]};
             proto := Some 0%nat |} st in
  ({| Spl_constructor := ctor; Spl_prototype := prototype |}, st).

(** [new Spl()]: the constructor assigns three own properties. *)
Definition new_Spl (cls : Spl_class) (st : store) : addr * store :=
  let '(authorityTypes, st) :=
    alloc {| props := {[ "mint" := VString "MintTokens";
                         "freeze" := VString "FreezeAccount";
                         "owner" := VString "AccountOwner";
                         "close" := VString "CloseAccount" ]};
             proto := Some 0%nat |} st in
  alloc {| props := {[ "_cluster" := VNull;
                       "_connection" := VNull;
                       "_authorityTypes" := VObject authorityTypes ]};
           proto := Some (Spl_prototype cls) |} st.

(** ToBoolean, on the values of this model. *)
Definition truthy (v : value) : bool :=
  match v with
  | VUndefined | VNull => false
  | VString s => negb (String.eqb s "")
  | _ => true
  end.

(** [v.k]: reading a property off [undefined] or [null] throws. *)
Definition member (st : store) (v : value) (k : string) : completion value :=
  match v with
  | VUndefined => Throw "TypeError: Cannot read properties of undefined"
  | VNull => Throw "TypeError: Cannot read properties of null"
  | _ => Return (get st v k)
  end.

(** [v[key]], the key being a string, [null] or [undefined]. *)
Definition index (st : store) (v key : value) : completion value :=
  match key with
  | VString k => member st v k
  | VNull => member st v "null"
  | _ => member st v "undefined"
  end.

Section Spl.

(** [new solana.Connection(endpoint, commitment)], which may throw. *)
Variable Connection : value -> string -> completion value.

(** [connect(cluster = null)]. The right operand of [||] is evaluated only
    when [cluster] is falsy; [_cluster] is assigned before the arguments of
    [new solana.Connection] are evaluated. *)
Definition connect (this : addr) (cluster : value) (st : store)
  : completion value * store :=
  let cluster := match cluster with VUndefined => VNull | c => c end in
  match (if truthy cluster then Return cluster
         else member st (get st (VObject this) "_clusters") "dev") with
  | Throw e => (Throw e, st)
  | Return c =>
      let st := put this "_cluster" c st in
      match index st (get st (VObject this) "_clusterApiUrls")
                     (get st (VObject this) "_cluster") with
      | Throw e => (Throw e, st)
      | Return endpoint =>
          match Connection endpoint "confirmed" with
          | Throw e => (Throw e, st)
          | Return conn =>
              (Return (VObject this), put this "_connection" conn st)
          end
      end
  end.

(** [SplFactory.create(cluster = null)]: [new Spl().connect(cluster)]. *)
Definition SplFactory_create (cls : Spl_class) (cluster : value) (st : store)
  : completion value * store :=
  let '(this, st) := new_Spl cls st in
  connect this cluster st.

End Spl.

(** [s.startsWith(prefix)] *)
Fixpoint startsWith (s prefix : jsstring) : bool :=
  match prefix, s with
  | [], _ => true
  | p :: prefix', c :: s' => (p =? c) && startsWith s' prefix'
  | _ :: _, [] => false
  end.

(** An assignment to a [const] binding: the right-hand side has been
    evaluated, the binding is not changed, and a [TypeError] is thrown. *)
Definition assign_const {A : Type} (value : A) : completion A :=
  Throw "TypeError: Assignment to constant variable.".

Section GenerateKeypair.
Context {L : Libs}.

(** [generated i] is what the [i]-th call of [solana.Keypair.generate()]
    returns. *)
Variable generated : nat -> Keypair.

(** [while (!keypair.publicKey.toString().startsWith(prefix))
       keypair = solana.Keypair.generate();]
    with [keypair] declared [const]. [calls] counts the keypairs generated
    so far, [fuel] bounds the iterations. [toString] of a public key is its
    base-58 form. *)
Fixpoint search_prefix (fuel : nat) (prefix : jsstring) (keypair : Keypair) (calls : nat)
  : completion Keypair * nat :=
  match fuel with
  | O => (Throw "the loop did not end within the given number of iterations", calls)
  | S fuel' =>
      if negb (startsWith (PublicKey_toBase58 (publicKey keypair)) prefix) then
        match assign_const (generated calls) with
        | Return keypair' => search_prefix fuel' prefix keypair' (S calls)
        | Throw e => (Throw e, S calls)
        end
      else (Return keypair, calls)
  end.

(** [generateKeypair(publicKeyPrefix = null)]; the second component is the
    number of keypairs generated. *)
Definition generateKeypair (fuel : nat) (publicKeyPrefix : option jsstring)
  : completion Keypair * nat :=
  let keypair := generated 0%nat in
  match publicKeyPrefix with
  | None | Some [] => (Return keypair, 1%nat)
  | Some prefix => search_prefix fuel prefix keypair 1%nat
  end.

End GenerateKeypair.

(** The class and one fresh instance, in the store they live in. *)
Definition the_class : Spl_class := fst (class_Spl initial_store).
Definition class_store : store := snd (class_Spl initial_store).
Definition fresh_Spl : addr := fst (new_Spl the_class class_store).
Definition fresh_store : store := snd (new_Spl the_class class_store).

End SplJs.

(* ===================================================================== *)
(** ** Reading a printed key back *)
(* ===================================================================== *)

(** The numbers in a comma-separated list of decimal numerals, the way
    [JSON.parse] reads the inside of ["[1,2,3]"]. [acc] is the value of the
    digits read so far of the current numeral. *)
Fixpoint parse_decimals (acc : N) (s : jsstring) : list N :=
  match s with
  | [] => [acc]
  | c :: s' =>
      if c =? 44 then acc :: parse_decimals 0 s'
      else parse_decimals (10 * acc + (c - 48)) s'
  end.

Import WalletJs.

(* ===================================================================== *)
(** ** Strings: trimming, splitting and joining *)
(* ===================================================================== *)

Example split_leading_trailing :
  split_ws (js " a  b ") = [[]; js "a"; js "b"; []].
Proof. reflexivity. Qed.

Example split_empty : split_ws [] = [[]].
Proof. reflexivity. Qed.

Example normalize_irregular :
  _normalizeMnemonic ([9] ++ js " word1   word2" ++ [10; 12288] ++ js "word3 " ++ [160])
  = js "word1 word2 word3".
Proof. reflexivity. Qed.

Example normalize_blank : _normalizeMnemonic (js "   ") = [].
Proof. reflexivity. Qed.

Example hex_of_three_bytes : toString_hex [x00; x0f; xa5] = js "000fa5".
Proof. reflexivity. Qed.

Example toString_of_three_bytes : Uint8Array_toString [x00; x0f; xa5] = js "0,15,165".
Proof. reflexivity. Qed.

Section StringFacts.

Local Abbreviation sp := (js " ").
Local Abbreviation no_ws := (fun c => isWhiteSpace c = false).

Lemma split_ws_from_not_nil b s : split_ws_from b s <> [].
Proof.
  revert b; induction s as [|c s IH]; intros b; simpl; [discriminate|].
  destruct (isWhiteSpace c).
  - destruct b; [apply IH | discriminate].
  - destruct (split_ws_from false s); discriminate.
Qed.

Lemma split_ws_from_word c w rest b :
  Forall no_ws (c :: w) ->
  split_ws_from b (c :: w ++ rest) = onto_first (c :: w) (split_ws_from false rest).
Proof.
  revert b c; induction w as [|d w IH]; intros b c Hw.
  - inversion Hw as [|? ? Hc _]; subst. simpl. rewrite Hc.
    destruct (split_ws_from false rest); reflexivity.
  - inversion Hw as [|? ? Hc Hw']; subst.
    change (split_ws_from b (c :: (d :: w) ++ rest))
      with (if isWhiteSpace c
            then if b then split_ws_from true ((d :: w) ++ rest)
                 else [] :: split_ws_from true ((d :: w) ++ rest)
            else match split_ws_from false (d :: w ++ rest) with
                 | p :: ps => (c :: p) :: ps
                 | [] => [[c]]
                 end).
    rewrite Hc, (IH false d Hw').
    destruct (split_ws_from false rest); reflexivity.
Qed.

Lemma join_cons_cons sep p q ps :
  join sep (p :: q :: ps) = p ++ sep ++ join sep (q :: ps).
Proof. reflexivity. Qed.

Lemma join_words_not_nil w ws : is_word w -> join sp (w :: ws) <> [].
Proof.
  intros [Hne _]. destruct w as [|c w]; [congruence|].
  destruct ws; discriminate.
Qed.

Lemma split_join_words ws b :
  Forall is_word ws -> ws <> [] -> split_ws_from b (join sp ws) = ws.
Proof.
  intros Hws; revert b; induction Hws as [|w ws [Hne Hw] Hws IH]; intros b Hnil;
    [congruence|].
  destruct w as [|c w]; [congruence|].
  destruct ws as [|w2 ws].
  - simpl join. rewrite <- (app_nil_r w), split_ws_from_word by assumption.
    simpl. now rewrite !app_nil_r.
  - rewrite join_cons_cons.
    change ((c :: w) ++ sp ++ join sp (w2 :: ws))
      with (c :: w ++ 32 :: join sp (w2 :: ws)).
    rewrite split_ws_from_word by assumption.
    change (split_ws_from false (32 :: join sp (w2 :: ws)))
      with ([] :: split_ws_from true (join sp (w2 :: ws))).
    rewrite IH by discriminate. simpl. now rewrite app_nil_r.
Qed.

Lemma trimEnd_no_ws w : Forall no_ws w -> trimEnd w = w.
Proof.
  induction 1 as [|c w Hc _ IH]; [reflexivity|].
  simpl. rewrite IH, Hc. destruct w; reflexivity.
Qed.

Lemma trimEnd_app_fixed l r : trimEnd r = r -> r <> [] -> trimEnd (l ++ r) = l ++ r.
Proof.
  intros Hr Hne; induction l as [|c l IH]; [exact Hr|].
  simpl. rewrite IH. destruct (l ++ r) eqn:E; [|reflexivity].
  apply app_eq_nil in E. tauto.
Qed.

Lemma trimEnd_idem s : trimEnd (trimEnd s) = trimEnd s.
Proof.
  induction s as [|c s IH]; [reflexivity|].
  simpl. destruct (trimEnd s) as [|x t] eqn:E.
  - destruct (isWhiteSpace c) eqn:Hc; [reflexivity|]. simpl. now rewrite Hc.
  - change (trimEnd (c :: x :: t))
      with (match trimEnd (x :: t) with
            | [] => if isWhiteSpace c then [] else [c]
            | u => c :: u
            end).
    now rewrite IH.
Qed.

Lemma trimEnd_join_words ws : Forall is_word ws -> trimEnd (join sp ws) = join sp ws.
Proof.
  induction 1 as [|w ws [Hne Hw] Hws IH]; [reflexivity|].
  destruct ws as [|w2 ws]; [now apply trimEnd_no_ws|].
  rewrite join_cons_cons. apply trimEnd_app_fixed; [|discriminate].
  apply (trimEnd_app_fixed sp); [exact IH|].
  inversion Hws; subst. now apply join_words_not_nil.
Qed.

Lemma trimStart_join_words ws : Forall is_word ws -> trimStart (join sp ws) = join sp ws.
Proof.
  intros Hws. destruct Hws as [|w ws [Hne Hw] Hws]; [reflexivity|].
  destruct w as [|c w]; [congruence|].
  inversion Hw as [|? ? Hc _]; subst.
  destruct ws; simpl; now rewrite Hc.
Qed.

Lemma trim_join_words ws : Forall is_word ws -> trim (join sp ws) = join sp ws.
Proof.
  intros Hws. unfold trim. rewrite trimStart_join_words by assumption.
  now apply trimEnd_join_words.
Qed.

(** A non-empty string with no trailing white space splits into words,
    except for the empty first piece a leading separator leaves. *)
Lemma split_trimmed_words s :
  trimEnd s = s -> s <> [] ->
  Forall is_word (split_ws_from true s) /\
  (forall c s', s = c :: s' -> isWhiteSpace c = false ->
                Forall is_word (split_ws_from false s)).
Proof.
  induction s as [|c s IH]; intros Hfix Hne; [congruence|].
  assert (Hcases : (s = [] /\ isWhiteSpace c = false) \/ (trimEnd s = s /\ s <> [])).
  { simpl in Hfix. destruct (trimEnd s) as [|x t] eqn:E.
    - left. destruct (isWhiteSpace c); [discriminate|].
      injection Hfix as <-. auto.
    - right. injection Hfix as <-. split; [reflexivity | discriminate]. }
  destruct Hcases as [[-> Hc] | [Hfix' Hne']].
  - assert (Hw : Forall is_word [[c]]).
    { repeat constructor; [discriminate | assumption]. }
    simpl. rewrite Hc. split; [exact Hw | intros; exact Hw].
  - destruct (IH Hfix' Hne') as [IHt IHf].
    assert (Hnw : isWhiteSpace c = false -> Forall is_word (split_ws_from false (c :: s))).
    { intros Hc. simpl. rewrite Hc.
      destruct s as [|d s]; [congruence|].
      destruct (isWhiteSpace d) eqn:Hd.
      - simpl. rewrite Hd. simpl in IHt. rewrite Hd in IHt.
        constructor; [|exact IHt].
        split; [discriminate | repeat constructor; assumption].
      - specialize (IHf d s eq_refl Hd).
        destruct (split_ws_from false (d :: s)) as [|p ps].
        + repeat constructor; [discriminate | assumption].
        + inversion IHf as [|? ? [Hp1 Hp2] Hps]; subst.
          constructor; [|exact Hps].
          split; [discriminate | constructor; assumption]. }
    split.
    + destruct (isWhiteSpace c) eqn:Hc.
      * simpl. rewrite Hc. exact IHt.
      * specialize (Hnw eq_refl). simpl in Hnw |- *. rewrite Hc in Hnw |- *.
        exact Hnw.
    + intros c' s' Heq Hc'. injection Heq as <- <-. auto.
Qed.

Lemma trimStart_head s :
  match trimStart s with
  | [] => True
  | c :: _ => isWhiteSpace c = false
  end.
Proof.
  induction s as [|c s IH]; [exact I|].
  simpl. destruct (isWhiteSpace c) eqn:Hc; assumption.
Qed.

Lemma trimEnd_head c s : isWhiteSpace c = false -> exists t, trimEnd (c :: s) = c :: t.
Proof.
  intros Hc. simpl. rewrite Hc. destruct (trimEnd s); eauto.
Qed.

(** [trim] leaves the empty string or a string that starts and ends
    outside white space; the latter splits into words. *)
Lemma split_trim m : trim m = [] \/ Forall is_word (split_ws (trim m)).
Proof.
  unfold trim. pose proof (trimStart_head m) as Hh.
  destruct (trimStart m) as [|c s]; [left; reflexivity|].
  right. destruct (trimEnd_head c s Hh) as [t Ht].
  pose proof (trimEnd_idem (c :: s)) as Hidem. rewrite Ht in *.
  exact (proj2 (split_trimmed_words (c :: t) Hidem ltac:(discriminate)) c t eq_refl Hh).
Qed.

End StringFacts.

(* ===================================================================== *)
(** ** Normalization of a mnemonic *)
(* ===================================================================== *)

Lemma normalize_join_words ws :
  Forall is_word ws -> _normalizeMnemonic (join (js " ") ws) = join (js " ") ws.
Proof.
  intros Hws. unfold _normalizeMnemonic. rewrite trim_join_words by assumption.
  destruct ws as [|w ws]; [reflexivity|].
  unfold split_ws. now rewrite split_join_words.
Qed.

Lemma normalize_single_spaced m : single_spaced_words (_normalizeMnemonic m).
Proof.
  unfold _normalizeMnemonic. destruct (split_trim m) as [E | Hws].
  - rewrite E. exists []. split; [reflexivity | constructor].
  - eexists; split; [reflexivity | exact Hws].
Qed.

Lemma lowercase_app a b : lowercase (a ++ b) = lowercase a && lowercase b.
Proof. apply forallb_app. Qed.

Lemma lowercase_join ws :
  Forall (fun w => lowercase w = true) ws -> lowercase (join (js " ") ws) = true.
Proof.
  induction 1 as [|w ws Hw Hws IH]; [reflexivity|].
  destruct ws as [|w2 ws]; [exact Hw|].
  rewrite join_cons_cons, !lowercase_app, Hw, IH. reflexivity.
Qed.

(** C4, as the specification states it, fails: the phrase
    ["Word1  word2\tword3"] normalizes to ["Word1 word2 word3"], which keeps
    its capital letter. *)
Lemma normalize_keeps_upper_case :
  _normalizeMnemonic (js "Word1  word2" ++ [9] ++ js "word3") = js "Word1 word2 word3" /\
  ~ single_spaced_lowercase_words
      (_normalizeMnemonic (js "Word1  word2" ++ [9] ++ js "word3")).
Proof.
  split; [reflexivity|].
  intros (ws & E & _ & Hlow).
  apply lowercase_join in Hlow. rewrite <- E in Hlow.
  vm_compute in Hlow. discriminate.
Qed.

Section Words.

Local Abbreviation nonempty :=
  (List.filter (fun w : jsstring => match w with [] => false | _ :: _ => true end)).

Lemma nonempty_split_ws_from b s :
  nonempty (split_ws_from b s) = nonempty (split_ws_from false s).
Proof.
  destruct s as [|c s]; [reflexivity|]. simpl.
  destruct (isWhiteSpace c); [destruct b|]; reflexivity.
Qed.

Lemma nonempty_split_trimStart s :
  nonempty (split_ws (trimStart s)) = nonempty (split_ws s).
Proof.
  unfold split_ws. induction s as [|c s IH]; [reflexivity|].
  simpl. destruct (isWhiteSpace c) eqn:Hc; [|simpl; now rewrite Hc].
  rewrite IH. simpl. symmetry. apply nonempty_split_ws_from.
Qed.

(** Trailing white space adds at most an empty last piece. *)
Lemma split_trimEnd s b :
  hd [] (split_ws_from b (trimEnd s)) = hd [] (split_ws_from b s) /\
  nonempty (tl (split_ws_from b (trimEnd s))) = nonempty (tl (split_ws_from b s)).
Proof.
  revert b; induction s as [|c s IH]; intros b; [split; reflexivity|].
  assert (Hsame : forall b', nonempty (split_ws_from b' (trimEnd s))
                             = nonempty (split_ws_from b' s)).
  { intros b'. destruct (IH b') as [Hh Ht].
    pose proof (split_ws_from_not_nil b' (trimEnd s)) as N1.
    pose proof (split_ws_from_not_nil b' s) as N2.
    destruct (split_ws_from b' (trimEnd s)) as [|h1 t1]; [congruence|].
    destruct (split_ws_from b' s) as [|h2 t2]; [congruence|].
    simpl in *. subst h2. now rewrite Ht. }
  destruct (isWhiteSpace c) eqn:Hc.
  - simpl trimEnd. destruct (trimEnd s) as [|x t] eqn:E.
    + rewrite Hc. simpl. rewrite Hc.
      destruct (IH true) as [Hh Ht]. simpl in Hh, Ht.
      pose proof (Hsame true) as Hs. simpl in Hs.
      destruct b; [split; [exact Hh | exact Ht]|].
      simpl. split; [reflexivity | exact Hs].
    + change (split_ws_from b (c :: x :: t))
        with (if isWhiteSpace c
              then if b then split_ws_from true (x :: t)
                   else [] :: split_ws_from true (x :: t)
              else match split_ws_from false (x :: t) with
                   | w :: ws => (c :: w) :: ws
                   | [] => [[c]]
                   end).
      simpl (split_ws_from b (c :: s)). rewrite Hc.
      destruct b; [exact (IH true)|].
      simpl. split; [reflexivity | exact (Hsame true)].
  - assert (Ht : trimEnd (c :: s) = c :: trimEnd s).
    { simpl. rewrite Hc. destruct (trimEnd s); reflexivity. }
    rewrite Ht. simpl. rewrite Hc.
    destruct (IH false) as [Hh Htl].
    pose proof (split_ws_from_not_nil false (trimEnd s)) as N1.
    pose proof (split_ws_from_not_nil false s) as N2.
    destruct (split_ws_from false (trimEnd s)) as [|h1 t1]; [congruence|].
    destruct (split_ws_from false s) as [|h2 t2]; [congruence|].
    simpl in *. subst h2. auto.
Qed.

Lemma nonempty_split_trim m : nonempty (split_ws (trim m)) = words m.
Proof.
  unfold words. transitivity (nonempty (split_ws (trimStart m)));
    [|apply nonempty_split_trimStart].
  unfold trim, split_ws.
  destruct (split_trimEnd (trimStart m) false) as [Hh Ht].
  pose proof (split_ws_from_not_nil false (trimEnd (trimStart m))) as N1.
  pose proof (split_ws_from_not_nil false (trimStart m)) as N2.
  destruct (split_ws_from false (trimEnd (trimStart m))) as [|h1 t1]; [congruence|].
  destruct (split_ws_from false (trimStart m)) as [|h2 t2]; [congruence|].
  simpl in *. subst h2. now rewrite Ht.
Qed.

Lemma nonempty_words ws : Forall is_word ws -> nonempty ws = ws.
Proof.
  induction 1 as [|w ws [Hne _] _ IH]; [reflexivity|].
  simpl. destruct w; [congruence|]. now rewrite IH.
Qed.

(** The normalized phrase is the words of the phrase, joined by spaces. *)
Lemma normalize_joins_words m :
  _normalizeMnemonic m = join (js " ") (words m) /\ Forall is_word (words m).
Proof.
  rewrite <- nonempty_split_trim. unfold _normalizeMnemonic.
  destruct (split_trim m) as [E | Hws].
  - rewrite E. split; [reflexivity | constructor].
  - rewrite (nonempty_words _ Hws). auto.
Qed.

Lemma without_white_space_app a b :
  without_white_space (a ++ b) = without_white_space a ++ without_white_space b.
Proof. apply List.filter_app. Qed.

Lemma without_white_space_words w :
  Forall (fun c => isWhiteSpace c = false) w -> without_white_space w = w.
Proof.
  induction 1 as [|c w Hc _ IH]; [reflexivity|].
  unfold without_white_space in *. simpl. now rewrite Hc, IH.
Qed.

Lemma without_white_space_trimStart s :
  without_white_space (trimStart s) = without_white_space s.
Proof.
  induction s as [|c s IH]; [reflexivity|].
  cbn [trimStart]. destruct (isWhiteSpace c) eqn:Hc; [|reflexivity].
  rewrite IH. unfold without_white_space. simpl. now rewrite Hc.
Qed.

Lemma without_white_space_trimEnd s :
  without_white_space (trimEnd s) = without_white_space s.
Proof.
  induction s as [|c s IH]; [reflexivity|].
  unfold without_white_space in *. simpl.
  destruct (trimEnd s) as [|x t] eqn:E.
  - destruct (isWhiteSpace c) eqn:Hc; simpl; [exact IH|].
    rewrite Hc. simpl. now rewrite <- IH.
  - change (List.filter _ (c :: x :: t))
      with (if negb (isWhiteSpace c)
            then c :: List.filter (fun c => negb (isWhiteSpace c)) (x :: t)
            else List.filter (fun c => negb (isWhiteSpace c)) (x :: t)).
    now rewrite IH.
Qed.

Lemma without_white_space_split b s :
  concat (split_ws_from b s) = without_white_space s.
Proof.
  revert b; induction s as [|c s IH]; intros b; [reflexivity|].
  unfold without_white_space in *. simpl.
  destruct (isWhiteSpace c) eqn:Hc; simpl.
  - destruct b; simpl; apply IH.
  - specialize (IH false).
    destruct (split_ws_from false s) as [|w ws]; simpl in *; now rewrite <- IH.
Qed.

Lemma without_white_space_join ws :
  without_white_space (join (js " ") ws) = without_white_space (concat ws).
Proof.
  induction ws as [|p ps IH]; [reflexivity|].
  destruct ps as [|q ps]; [simpl; now rewrite app_nil_r|].
  rewrite join_cons_cons. change (concat (p :: q :: ps)) with (p ++ concat (q :: ps)).
  rewrite !without_white_space_app, IH. reflexivity.
Qed.

Lemma without_white_space_idem s :
  without_white_space (without_white_space s) = without_white_space s.
Proof.
  unfold without_white_space. induction s as [|c s IH]; [reflexivity|].
  simpl. destruct (isWhiteSpace c) eqn:Hc; simpl; [exact IH|].
  now rewrite Hc, IH.
Qed.

Lemma normalize_without_white_space m :
  without_white_space (_normalizeMnemonic m) = without_white_space m.
Proof.
  unfold _normalizeMnemonic, split_ws.
  rewrite without_white_space_join, without_white_space_split,
    without_white_space_idem.
  unfold trim. now rewrite without_white_space_trimEnd, without_white_space_trimStart.
Qed.

End Words.

(** C4 (amended): [_normalizeMnemonic] is idempotent, and its result is the
    words of the phrase (its non-empty pieces between runs of white space,
    each of them as it stands, in order) separated by single spaces, with
    nothing before or after. Outside white space the result has the very
    code units of the phrase: no letter changes case. *)
Theorem normalizeMnemonic_idempotent_keeps_words (m : jsstring) :
  _normalizeMnemonic (_normalizeMnemonic m) = _normalizeMnemonic m /\
  single_spaced_words (_normalizeMnemonic m) /\
  _normalizeMnemonic m = join (js " ") (words m) /\
  Forall is_word (words m) /\
  without_white_space (_normalizeMnemonic m) = without_white_space m.
Proof.
  pose proof (normalize_single_spaced m) as Hs.
  destruct (normalize_joins_words m) as [Hj Hw].
  split; [|split; [exact Hs|split; [exact Hj|split; [exact Hw|]]]].
  - destruct Hs as (ws & -> & Hws). now apply normalize_join_words.
  - apply normalize_without_white_space.
Qed.

Example words_keep_case :
  words (js "  Word1  word2" ++ [9] ++ js "WORD3 ")
  = [js "Word1"; js "word2"; js "WORD3"].
Proof. reflexivity. Qed.

(* ===================================================================== *)
(** ** The package's exports *)
(* ===================================================================== *)



(* ===================================================================== *)
(** ** The wallet: running a method *)
(* ===================================================================== *)

Ltac unfold_wallet :=
  unfold create, restoreFromMnemonic, restoreFromMnemonic_not_string,
    restoreFromSeed, restoreFromPrivateKey,
    json, mnemonic, seed, get_publicKey, privateKey, publicKeyString,
    privateKeyString, keypair, derivationPaths,
    bind, this, call, ret,
    set_derivedPath, set_mnemonic, set_seed, set_seedHex, set_keypair in *;
  simpl in *.

Section WalletFacts.
Context {L : Libs}.

(** No member assigns [_derivationPaths]. *)
Lemma invoke_derivationPaths c w :
  _derivationPaths (invoke c w) = _derivationPaths w.
Proof.
  destruct c; unfold invoke; unfold_wallet; repeat case_match; reflexivity.
Qed.

Lemma reachable_standard_paths w : reachable w -> _derivationPaths w = standard_paths.
Proof.
  induction 1 as [|c w _ IH]; [reflexivity|].
  now rewrite invoke_derivationPaths.
Qed.

Lemma standard_paths_lookup name path :
  standard_paths !! name = Some path <->
  (name = "deprecated" /\ path = js "m/501'/0'/0/0") \/
  (name = "bip44" /\ path = js "m/44'/501'/0'") \/
  (name = "bip44Change" /\ path = js "m/44'/501'/0'/0'").
Proof.
  unfold standard_paths.
  rewrite !lookup_insert_Some, lookup_singleton_Some.
  split.
  - intros [[<- <-] | [_ [[<- <-] | [_ [<- <-]]]]]; auto.
  - intros [[-> ->] | [[-> ->] | [-> ->]]]; [auto | right | right].
    + split; [discriminate | auto].
    + split; [discriminate | right; split; [discriminate | auto]].
Qed.

End WalletFacts.

(* ===================================================================== *)
(** ** The table of named paths *)
(* ===================================================================== *)

(** C5, as the specification states it, fails: a fresh wallet's accessor
    does not return the table with a [legacy] entry; it has no entry of
    that name, and names the path [m/501'/0'/0/0] [deprecated]. *)
Lemma derivationPaths_has_no_legacy :
  @derivationPaths new_Wallet <> (Return spec_derivation_paths, new_Wallet) /\
  fst (@derivationPaths new_Wallet) = Return standard_paths /\
  standard_paths !! "legacy" = None /\
  standard_paths !! "deprecated" = Some (js "m/501'/0'/0/0").
Proof.
  split; [|repeat split].
  intros H.
  apply (f_equal (fun r => match fst r with
                           | Return t => t !! "legacy"
                           | Throw _ => None
                           end)) in H.
  vm_compute in H. discriminate.
Qed.

(** C5 (amended): on every wallet a program can hold, the [derivationPaths]
    accessor returns a table of exactly three entries: [deprecated] is
    [m/501'/0'/0/0], [bip44] is [m/44'/501'/0'] and [bip44Change] is
    [m/44'/501'/0'/0']. *)
Theorem derivationPaths_three_entries `{Libs} (w : Wallet) :
  reachable w ->
  exists t, derivationPaths w = (Return t, w) /\
            size t = 3%nat /\
            forall name path,
              t !! name = Some path <->
              (name = "deprecated" /\ path = js "m/501'/0'/0/0") \/
              (name = "bip44" /\ path = js "m/44'/501'/0'") \/
              (name = "bip44Change" /\ path = js "m/44'/501'/0'/0'").
Proof.
  intros Hr. exists (_derivationPaths w). split; [reflexivity|].
  rewrite (reachable_standard_paths w Hr).
  split; [reflexivity | apply standard_paths_lookup].
Qed.

Lemma derivationPaths_three_entries_witness :
  exists t,
    derivationPaths
      (invoke (L:=Sim.libs) (RestoreFromPrivateKey Sim.secretKey0) new_Wallet)
    = (Return t,
       invoke (L:=Sim.libs) (RestoreFromPrivateKey Sim.secretKey0) new_Wallet) /\
    size t = 3%nat /\
    forall name path,
      t !! name = Some path <->
      (name = "deprecated" /\ path = js "m/501'/0'/0/0") \/
      (name = "bip44" /\ path = js "m/44'/501'/0'") \/
      (name = "bip44Change" /\ path = js "m/44'/501'/0'/0'").
Proof.
  apply (@derivationPaths_three_entries Sim.libs).
  apply reach_invoke, reach_new.
Defined.

(* ===================================================================== *)
(** ** What can change a wallet *)
(* ===================================================================== *)

(** C10, as the specification states it, fails: the construction methods
    are members of the instance and assign its fields again. A wallet
    restored from one private key and then, in place, from another holds
    the second key. *)
Lemma construction_on_instance_changes_keypair :
  ~ @immutable_after_construction Sim.libs.
Proof.
  intros Himm.
  pose (w0 := snd (restoreFromPrivateKey (L:=Sim.libs) Sim.secretKey0 new_Wallet)).
  assert (Hc : constructed (L:=Sim.libs) w0).
  { apply constructed_privateKey with (k := Sim.secretKey0). vm_compute. reflexivity. }
  specialize (Himm w0 (RestoreFromPrivateKey Sim.secretKey1) Hc).
  vm_compute in Himm. discriminate.
Qed.

(** C10 (amended): of the members of a wallet instance, only the four
    construction methods can change it; every accessor and helper leaves
    the instance, and so its keypair, mnemonic, seed and derivation path,
    exactly as it was. *)
Theorem only_construction_changes_wallet `{Libs} (c : member) (w : Wallet) :
  is_construction c = false -> invoke c w = w /\ identity (invoke c w) = identity w.
Proof.
  intros Hc.
  assert (E : invoke c w = w).
  { destruct c; try discriminate; unfold invoke; unfold_wallet; reflexivity. }
  now rewrite E.
Qed.

Lemma only_construction_changes_wallet_witness :
  invoke (L:=Sim.libs) GetJson
    (snd (restoreFromPrivateKey (L:=Sim.libs) Sim.secretKey0 new_Wallet))
  = snd (restoreFromPrivateKey (L:=Sim.libs) Sim.secretKey0 new_Wallet) /\
  identity (invoke (L:=Sim.libs) GetJson
    (snd (restoreFromPrivateKey (L:=Sim.libs) Sim.secretKey0 new_Wallet)))
  = identity (snd (restoreFromPrivateKey (L:=Sim.libs) Sim.secretKey0 new_Wallet)).
Proof.
  apply (@only_construction_changes_wallet Sim.libs GetJson). reflexivity.
Defined.

(* ===================================================================== *)
(** ** The default derivation path *)
(* ===================================================================== *)

Lemma standard_paths_bip44Change :
  standard_paths !! "bip44Change" = Some (js "m/44'/501'/0'/0'").
Proof. reflexivity. Qed.

(** C6: when [create] or [restoreFromMnemonic] is called without a
    derivation path, the path recorded on the wallet and handed to the
    child-key derivation is [m/44'/501'/0'/0'], the [bip44Change] entry. *)
Theorem default_path_is_bip44Change `{Libs}
    (pass : option jsstring) (entropy : bytes) (m : jsstring) (w : Wallet) :
  reachable w ->
  (_derivedPath (snd (create pass None entropy w)) = Some (js "m/44'/501'/0'/0'") /\
   derived_along (js "m/44'/501'/0'/0'") (create pass None entropy w)) /\
  (_derivedPath (snd (restoreFromMnemonic m pass None w)) = Some (js "m/44'/501'/0'/0'") /\
   derived_along (js "m/44'/501'/0'/0'") (restoreFromMnemonic m pass None w)).
Proof.
  intros Hr. pose proof (reachable_standard_paths w Hr) as Hp.
  unfold derived_along.
  split; unfold_wallet; rewrite Hp, standard_paths_bip44Change; simpl;
    repeat case_match; simplify_eq; simpl in *; split; congruence.
Qed.

Lemma default_path_is_bip44Change_witness :
  (_derivedPath (snd (create (L:=Sim.libs) None None Sim.entropy0 new_Wallet))
     = Some (js "m/44'/501'/0'/0'") /\
   derived_along (L:=Sim.libs) (js "m/44'/501'/0'/0'")
     (create (L:=Sim.libs) None None Sim.entropy0 new_Wallet)) /\
  (_derivedPath (snd (restoreFromMnemonic (L:=Sim.libs) (js "zoo") None None new_Wallet))
     = Some (js "m/44'/501'/0'/0'") /\
   derived_along (L:=Sim.libs) (js "m/44'/501'/0'/0'")
     (restoreFromMnemonic (L:=Sim.libs) (js "zoo") None None new_Wallet)).
Proof.
  apply (@default_path_is_bip44Change Sim.libs). apply reach_new.
Defined.

(* ===================================================================== *)
(** ** The stand-in primitives meet what is assumed of the real ones *)
(* ===================================================================== *)

Lemma Sim_word_of_is_word b : is_word (Sim.word_of b).
Proof.
  unfold Sim.word_of. destruct (N.even (Byte.to_N b));
    (split; [discriminate | repeat constructor]).
Qed.

Lemma Sim_generateMnemonic_bip39 : generateMnemonic_bip39 (L:=Sim.libs).
Proof.
  intros strength entropy _ _. eexists. split; [reflexivity|]. split.
  - generalize (take (Sim.words_for strength)
                 (entropy ++ repeat x00 (Sim.words_for strength))).
    intros l; induction l; constructor; [apply Sim_word_of_is_word | assumption].
  - rewrite length_map, length_take, length_app, repeat_length.
    fold (Sim.words_for strength). lia.
Qed.

Lemma Sim_derivePath_rejects_missing_seed :
  derivePath_rejects_missing_seed (L:=Sim.libs).
Proof.
  intros [p|]; simpl; unfold Sim.derive; [destruct (hardened_path p)|];
    eexists; reflexivity.
Qed.

Lemma Sim_derivePath_hardened_only : derivePath_hardened_only (L:=Sim.libs).
Proof.
  intros path seedHex Hp. simpl. unfold Sim.derive. rewrite Hp. eauto.
Qed.

Lemma Sim_derivePath_separates_bip44_paths :
  derivePath_separates_bip44_paths (L:=Sim.libs).
Proof.
  intros h k1 k2 E1 E2 Hk. simpl in E1, E2.
  injection E1 as <-. injection E2 as <-.
  apply (f_equal (fun l => nth 0 l x00)) in Hk.
  vm_compute in Hk. discriminate.
Qed.

Lemma Sim_fromSeed_starts_with_seed : fromSeed_starts_with_seed (L:=Sim.libs).
Proof.
  intros s pair E. simpl in E. unfold Sim.fromSeed in E.
  destruct (length s =? 32)%nat eqn:Hlen; [|discriminate].
  apply Nat.eqb_eq in Hlen. injection E as <-. simpl.
  split; [exact Hlen|]. now apply take_app_length'.
Qed.

Lemma Sim_fromSecretKey_keeps_bytes : fromSecretKey_keeps_bytes (L:=Sim.libs).
Proof.
  intros k kp E. simpl in E. unfold Sim.fromSecretKey in E.
  repeat case_match; try discriminate. now injection E as <-.
Qed.

(* ===================================================================== *)
(** ** Restoring from a private key *)
(* ===================================================================== *)

(** C7: for a private key [k] that [Keypair.fromSecretKey] accepts, the
    wallet restored from [k] holds the keypair made from [k], and its
    [privateKey] accessor returns the bytes of [k] unchanged (given that
    a web3.js keypair holds the secret key it was made from). *)
Theorem restoreFromPrivateKey_keeps_key `{Libs} (k : bytes) (w : Wallet) :
  fromSecretKey_keeps_bytes ->
  (exists kp, Keypair_fromSecretKey k = Return kp) ->
  fst (restoreFromPrivateKey k w) = Return tt /\
  fst (keypair (snd (restoreFromPrivateKey k w))) =
    match Keypair_fromSecretKey k with
    | Return kp => Return (Some kp)
    | Throw e => Throw e
    end /\
  fst (privateKey (snd (restoreFromPrivateKey k w))) = Return (Some k).
Proof.
  intros Hkeep [kp Hkp]. specialize (Hkeep k kp Hkp).
  unfold_wallet. rewrite Hkp. simpl. rewrite Hkeep. auto.
Qed.

Lemma restoreFromPrivateKey_keeps_key_witness :
  fst (restoreFromPrivateKey (L:=Sim.libs) Sim.secretKey0 new_Wallet) = Return tt /\
  fst (keypair (snd (restoreFromPrivateKey (L:=Sim.libs) Sim.secretKey0 new_Wallet))) =
    match Keypair_fromSecretKey (Libs:=Sim.libs) Sim.secretKey0 with
    | Return kp => Return (Some kp)
    | Throw e => Throw e
    end /\
  fst (privateKey (snd (restoreFromPrivateKey (L:=Sim.libs) Sim.secretKey0 new_Wallet)))
    = Return (Some Sim.secretKey0).
Proof.
  apply (@restoreFromPrivateKey_keeps_key Sim.libs).
  - exact Sim_fromSecretKey_keeps_bytes.
  - eexists. vm_compute. reflexivity.
Defined.

(* ===================================================================== *)
(** ** Restoring from an invalid mnemonic *)
(* ===================================================================== *)

(** C2: when the normalized phrase fails [bip39.validateMnemonic], the
    hex seed is [null] and [derivePath] is called with it; as the
    derivation refuses a missing seed, [restoreFromMnemonic] throws. No
    keypair, seed or hex seed comes out of the call: [_keypair] and
    [_seed] keep what they held ([null] on a new wallet) and [_seedHex] is
    [null]; the factory's caller receives no wallet at all. *)
Theorem restoreFromMnemonic_invalid_throws `{Libs}
    (m : jsstring) (pass d : option jsstring) (w : Wallet) :
  derivePath_rejects_missing_seed ->
  bip39_validateMnemonic (_normalizeMnemonic m) = false ->
  (exists e, fst (restoreFromMnemonic m pass d w) = Throw e) /\
  _keypair (snd (restoreFromMnemonic m pass d w)) = _keypair w /\
  _seed (snd (restoreFromMnemonic m pass d w)) = _seed w /\
  _seedHex (snd (restoreFromMnemonic m pass d w)) = None /\
  (exists e, WalletFactory_restoreFromMnemonic m pass d = Throw e).
Proof.
  intros Hrej Hbad.
  destruct (Hrej (js_or d (_derivationPaths w !! "bip44Change"))) as [e He].
  destruct (Hrej (js_or d (standard_paths !! "bip44Change"))) as [e' He'].
  unfold WalletFactory_restoreFromMnemonic, on_new_Wallet.
  unfold_wallet. unfold _mnemonicToSeedHex. rewrite Hbad. simpl.
  rewrite He, He'. simpl. eauto 10.
Qed.

Lemma restoreFromMnemonic_invalid_throws_witness :
  (exists e, fst (restoreFromMnemonic (L:=Sim.libs)
                    (js "zoo zoo  zoo") None None new_Wallet) = Throw e) /\
  _keypair (snd (restoreFromMnemonic (L:=Sim.libs)
                   (js "zoo zoo  zoo") None None new_Wallet)) = _keypair new_Wallet /\
  _seed (snd (restoreFromMnemonic (L:=Sim.libs)
                (js "zoo zoo  zoo") None None new_Wallet)) = _seed new_Wallet /\
  _seedHex (snd (restoreFromMnemonic (L:=Sim.libs)
                   (js "zoo zoo  zoo") None None new_Wallet)) = None /\
  (exists e, WalletFactory_restoreFromMnemonic (L:=Sim.libs)
               (js "zoo zoo  zoo") None None = Throw e).
Proof.
  apply (@restoreFromMnemonic_invalid_throws Sim.libs).
  - exact Sim_derivePath_rejects_missing_seed.
  - vm_compute. reflexivity.
Defined.

(* ===================================================================== *)
(** ** Creating a wallet and restoring it from its mnemonic *)
(* ===================================================================== *)

Section CreateRestore.
Context {L : Libs}.

Lemma create_mnemonic pass d entropy w :
  _mnemonic (snd (create pass d entropy w)) = Some (_generateMnemonic entropy).
Proof. unfold_wallet. repeat case_match; reflexivity. Qed.


Lemma generated_bip39_phrase entropy :
  generateMnemonic_bip39 -> bip39_phrase 256 (_generateMnemonic entropy).
Proof. intros Hgen. apply Hgen; [reflexivity | lia]. Qed.


(** What a normal return of [restoreFromMnemonic] with an explicit path
    tells about the three library calls behind it. *)
Lemma restoreFromMnemonic_returned m pass c d w :
  fst (restoreFromMnemonic m pass (Some (c :: d)) w) = Return tt ->
  exists keys pair kp,
    derivePath (Some (c :: d)) (_mnemonicToSeedHex (_normalizeMnemonic m) pass)
      = Return keys /\
    nacl_sign_keyPair_fromSeed (key keys) = Return pair /\
    Keypair_fromSecretKey (nacl_secretKey pair) = Return kp /\
    _keypair (snd (restoreFromMnemonic m pass (Some (c :: d)) w)) = Some kp.
Proof.
  unfold_wallet. intros Hret.
  destruct (derivePath _ _) as [keys|] eqn:D; simpl in *; [|discriminate].
  destruct (nacl_sign_keyPair_fromSeed _) as [pair|] eqn:S; simpl in *; [|discriminate].
  destruct (Keypair_fromSecretKey _) as [kp|] eqn:K; simpl in *; [|discriminate].
  exists keys, pair, kp. auto.
Qed.


End CreateRestore.



(** C9: the mnemonic [create] stores on the wallet, generated from 256
    bits of entropy, splits at white space into exactly 24 words (given
    that bip39 generates phrases of the BIP-39 shape). *)
Theorem created_mnemonic_has_24_words `{Libs}
    (pass d : option jsstring) (entropy : bytes) (w : Wallet) :
  generateMnemonic_bip39 ->
  exists m,
    fst (mnemonic (snd (create pass d entropy w))) = Return (Some m) /\
    length (split_ws m) = 24%nat /\
    Forall is_word (split_ws m).
Proof.
  intros Hgen. exists (_generateMnemonic entropy).
  split; [unfold mnemonic, this; simpl; now rewrite create_mnemonic|].
  destruct (generated_bip39_phrase entropy Hgen) as (ws & -> & Hws & Hlen).
  change (N.to_nat ((256 + 256 / 32) / 11)) with 24%nat in Hlen.
  unfold split_ws. rewrite split_join_words; auto.
  intros ->. discriminate.
Qed.

Lemma created_mnemonic_has_24_words_witness :
  exists m,
    fst (mnemonic (snd (create (L:=Sim.libs) None None Sim.entropy0 new_Wallet)))
      = Return (Some m) /\
    length (split_ws m) = 24%nat /\
    Forall is_word (split_ws m).
Proof.
  apply (@created_mnemonic_has_24_words Sim.libs).
  exact Sim_generateMnemonic_bip39.
Defined.

(* ===================================================================== *)
(** ** One mnemonic, different paths *)
(* ===================================================================== *)

Example recognized_paths_hardened :
  hardened_path (js "m/501'/0'/0/0") = false /\
  hardened_path (js "m/44'/501'/0'") = true /\
  hardened_path (js "m/44'/501'/0'/0'") = true.
Proof. repeat split. Qed.

(** C8, on the code: the first path of the table, [m/501'/0'/0/0], ends in
    two segments that are not hardened, and the derivation wallet.js calls
    refuses such a path. So restoring (or creating) along it throws, for
    every mnemonic and passphrase, and leaves no keypair to compare with
    those of the other two paths: the instance keeps the keypair it had,
    and the factory returns no wallet. *)
Theorem legacy_path_yields_no_keypair `{Libs}
    (m : jsstring) (pass : option jsstring) (entropy : bytes) (w : Wallet) :
  derivePath_hardened_only ->
  (exists e, fst (restoreFromMnemonic m pass (Some (js "m/501'/0'/0/0")) w) = Throw e) /\
  _keypair (snd (restoreFromMnemonic m pass (Some (js "m/501'/0'/0/0")) w))
    = _keypair w /\
  (exists e, WalletFactory_restoreFromMnemonic m pass (Some (js "m/501'/0'/0/0"))
             = Throw e) /\
  (exists e, WalletFactory_create pass (Some (js "m/501'/0'/0/0")) entropy = Throw e).
Proof.
  intros Hhard.
  assert (Hrej : forall seedHex,
             exists e, derivePath (Some (js "m/501'/0'/0/0")) seedHex = Throw e).
  { intros seedHex. now apply Hhard. }
  unfold WalletFactory_restoreFromMnemonic, WalletFactory_create, on_new_Wallet.
  unfold_wallet.
  destruct (Hrej (_mnemonicToSeedHex (_normalizeMnemonic m) pass)) as [e1 ->].
  destruct (Hrej (_mnemonicToSeedHex (_generateMnemonic entropy) pass)) as [e2 ->].
  simpl. eauto 10.
Qed.

Lemma legacy_path_yields_no_keypair_witness :
  (exists e, fst (restoreFromMnemonic (L:=Sim.libs)
                    (Sim.generateMnemonic 256 Sim.entropy0) None
                    (Some (js "m/501'/0'/0/0")) new_Wallet) = Throw e) /\
  _keypair (snd (restoreFromMnemonic (L:=Sim.libs)
                   (Sim.generateMnemonic 256 Sim.entropy0) None
                   (Some (js "m/501'/0'/0/0")) new_Wallet))
    = _keypair new_Wallet /\
  (exists e, WalletFactory_restoreFromMnemonic (L:=Sim.libs)
               (Sim.generateMnemonic 256 Sim.entropy0) None
               (Some (js "m/501'/0'/0/0")) = Throw e) /\
  (exists e, WalletFactory_create (L:=Sim.libs) None (Some (js "m/501'/0'/0/0"))
               Sim.entropy0 = Throw e).
Proof.
  apply (@legacy_path_yields_no_keypair Sim.libs).
  exact Sim_derivePath_hardened_only.
Defined.

(** X16: for a valid mnemonic and a fixed passphrase, restoring along
    [m/44'/501'/0'] and along [m/44'/501'/0'/0'] gives, when both calls
    return, two wallets that each hold a keypair, and the two keypairs
    differ (given that the child-key derivation separates the two paths,
    that a tweetnacl secret key starts with its 32-byte seed and that a
    web3.js keypair holds the secret key it was made from). *)
Theorem hardened_paths_distinct_keypairs `{Libs}
    (m : jsstring) (pass : option jsstring) (w1 w2 : Wallet) :
  derivePath_separates_bip44_paths ->
  fromSeed_starts_with_seed ->
  fromSecretKey_keeps_bytes ->
  bip39_validateMnemonic (_normalizeMnemonic m) = true ->
  fst (restoreFromMnemonic m pass (Some (js "m/44'/501'/0'")) w1) = Return tt ->
  fst (restoreFromMnemonic m pass (Some (js "m/44'/501'/0'/0'")) w2) = Return tt ->
  exists kp1 kp2,
    fst (keypair (snd (restoreFromMnemonic m pass (Some (js "m/44'/501'/0'")) w1)))
      = Return (Some kp1) /\
    fst (keypair (snd (restoreFromMnemonic m pass (Some (js "m/44'/501'/0'/0'")) w2)))
      = Return (Some kp2) /\
    kp1 <> kp2.
Proof.
  intros Hsep Hseed Hkeep Hvalid R1 R2.
  destruct (restoreFromMnemonic_returned _ _ _ _ _ R1)
    as (k1 & p1 & kp1 & D1 & S1 & K1 & W1).
  destruct (restoreFromMnemonic_returned _ _ _ _ _ R2)
    as (k2 & p2 & kp2 & D2 & S2 & K2 & W2).
  exists kp1, kp2. unfold keypair, this. cbn [fst]. unfold jsstring in *.
  split; [f_equal; exact W1|]. split; [f_equal; exact W2|].
  intros <-.
  pose proof (Hkeep _ _ K1) as B1. pose proof (Hkeep _ _ K2) as B2.
  destruct (Hseed _ _ S1) as [_ T1]. destruct (Hseed _ _ S2) as [_ T2].
  assert (Hkey : key k1 = key k2) by congruence.
  unfold _mnemonicToSeedHex in D1, D2. rewrite Hvalid in D1, D2. simpl in D1, D2.
  exact (Hsep _ _ _ D1 D2 Hkey).
Qed.

Lemma hardened_paths_distinct_keypairs_witness :
  exists kp1 kp2,
    fst (keypair (snd (restoreFromMnemonic (L:=Sim.libs)
                         (Sim.generateMnemonic 256 Sim.entropy0) (Some (js "test"))
                         (Some (js "m/44'/501'/0'")) new_Wallet)))
      = Return (Some kp1) /\
    fst (keypair (snd (restoreFromMnemonic (L:=Sim.libs)
                         (Sim.generateMnemonic 256 Sim.entropy0) (Some (js "test"))
                         (Some (js "m/44'/501'/0'/0'")) new_Wallet)))
      = Return (Some kp2) /\
    kp1 <> kp2.
Proof.
  apply (@hardened_paths_distinct_keypairs Sim.libs).
  - exact Sim_derivePath_separates_bip44_paths.
  - exact Sim_fromSeed_starts_with_seed.
  - exact Sim_fromSecretKey_keeps_bytes.
  - vm_compute. reflexivity.
  - vm_compute. reflexivity.
  - vm_compute. reflexivity.
Defined.

(* ===================================================================== *)
(** ** Further properties of the wallet *)
(* ===================================================================== *)

Section Construction.
Context {L : Libs}.

(** The path [create] and [restoreFromMnemonic] settle on. *)
Lemma chosen_path d :
  js_or d (standard_paths !! "bip44Change")
  = Some (match d with
          | Some (c :: t) => c :: t
          | _ => js "m/44'/501'/0'/0'"
          end).
Proof. rewrite standard_paths_bip44Change. destruct d as [[|c t]|]; reflexivity. Qed.

(** A run of [restoreFromMnemonic], spelled out: the fields it has assigned
    when it returns, and what it leaves behind when it throws. *)
Lemma restoreFromMnemonic_run m pass d w :
  _derivationPaths w = standard_paths ->
  let path := match d with
              | Some (c :: t) => c :: t
              | _ => js "m/44'/501'/0'/0'"
              end in
  let r := restoreFromMnemonic m pass d w in
  _derivedPath (snd r) = Some path /\
  _mnemonic (snd r) = Some (_normalizeMnemonic m) /\
  _seedHex (snd r) = _mnemonicToSeedHex (_normalizeMnemonic m) pass /\
  _derivationPaths (snd r) = standard_paths /\
  match fst r with
  | Return _ =>
      exists keys pair kp,
        derivePath (Some path) (_seedHex (snd r)) = Return keys /\
        _seed (snd r) = Some (key keys) /\
        nacl_sign_keyPair_fromSeed (key keys) = Return pair /\
        Keypair_fromSecretKey (nacl_secretKey pair) = Return kp /\
        _keypair (snd r) = Some kp
  | Throw _ => _keypair (snd r) = _keypair w
  end.
Proof.
  intros Hp. simpl. unfold_wallet. rewrite Hp, chosen_path.
  destruct (derivePath _ _) as [keys|] eqn:D; simpl; [|auto].
  destruct (nacl_sign_keyPair_fromSeed _) as [pair|] eqn:S; simpl; [|auto].
  destruct (Keypair_fromSecretKey _) as [kp|] eqn:K; simpl; [|auto].
  repeat split; trivial. exists keys, pair, kp. auto.
Qed.

Lemma create_run pass d entropy w :
  _derivationPaths w = standard_paths ->
  let path := match d with
              | Some (c :: t) => c :: t
              | _ => js "m/44'/501'/0'/0'"
              end in
  let r := create pass d entropy w in
  _derivedPath (snd r) = Some path /\
  _mnemonic (snd r) = Some (_generateMnemonic entropy) /\
  _seedHex (snd r) = _mnemonicToSeedHex (_generateMnemonic entropy) pass /\
  _derivationPaths (snd r) = standard_paths /\
  match fst r with
  | Return _ =>
      exists keys pair kp,
        derivePath (Some path) (_seedHex (snd r)) = Return keys /\
        _seed (snd r) = Some (key keys) /\
        nacl_sign_keyPair_fromSeed (key keys) = Return pair /\
        Keypair_fromSecretKey (nacl_secretKey pair) = Return kp /\
        _keypair (snd r) = Some kp
  | Throw _ => _keypair (snd r) = _keypair w
  end.
Proof.
  intros Hp. simpl. unfold_wallet. rewrite Hp, chosen_path.
  destruct (derivePath _ _) as [keys|] eqn:D; simpl; [|auto].
  destruct (nacl_sign_keyPair_fromSeed _) as [pair|] eqn:S; simpl; [|auto].
  destruct (Keypair_fromSecretKey _) as [kp|] eqn:K; simpl; [|auto].
  repeat split; trivial. exists keys, pair, kp. auto.
Qed.

Lemma restoreFromSeed_run s w :
  let r := restoreFromSeed s w in
  _derivedPath (snd r) = None /\
  _mnemonic (snd r) = None /\
  _seed (snd r) = Some s /\
  _seedHex (snd r) = Some (toString_hex s) /\
  _derivationPaths (snd r) = _derivationPaths w /\
  match fst r with
  | Return _ =>
      exists pair kp,
        nacl_sign_keyPair_fromSeed s = Return pair /\
        Keypair_fromSecretKey (nacl_secretKey pair) = Return kp /\
        _keypair (snd r) = Some kp
  | Throw _ => _keypair (snd r) = _keypair w
  end.
Proof.
  simpl. unfold_wallet.
  destruct (nacl_sign_keyPair_fromSeed _) as [pair|] eqn:S; simpl; [|auto 10].
  destruct (Keypair_fromSecretKey _) as [kp|] eqn:K; simpl; [|auto 10].
  repeat split; trivial. exists pair, kp. auto.
Qed.

Lemma restoreFromPrivateKey_run k w :
  let r := restoreFromPrivateKey k w in
  _derivedPath (snd r) = None /\
  _mnemonic (snd r) = None /\
  _seed (snd r) = None /\
  _seedHex (snd r) = None /\
  _derivationPaths (snd r) = _derivationPaths w /\
  match fst r with
  | Return _ =>
      exists kp, Keypair_fromSecretKey k = Return kp /\ _keypair (snd r) = Some kp
  | Throw _ => _keypair (snd r) = _keypair w
  end.
Proof.
  simpl. unfold_wallet.
  destruct (Keypair_fromSecretKey _) as [kp|] eqn:K; simpl; [|auto 10].
  repeat split; trivial. exists kp. auto.
Qed.

Lemma restoreFromMnemonic_not_string_run pass d w :
  _derivationPaths w = standard_paths ->
  let r := restoreFromMnemonic_not_string pass d w in
  (exists e, fst r = Throw e) /\
  is_Some (_derivedPath (snd r)) /\
  _mnemonic (snd r) = _mnemonic w /\
  _seed (snd r) = _seed w /\
  _seedHex (snd r) = _seedHex w /\
  _keypair (snd r) = _keypair w /\
  _derivationPaths (snd r) = _derivationPaths w.
Proof.
  intros Hp. simpl. unfold_wallet. rewrite Hp, chosen_path. simpl. eauto 10.
Qed.

(** What [new Wallet().method(...)] has handed out is the state that method
    left, and the method returned. *)
Lemma on_new_Wallet_returned body w :
  on_new_Wallet body = Return w ->
  fst (body new_Wallet) = Return tt /\ snd (body new_Wallet) = w.
Proof.
  unfold on_new_Wallet. destruct (body new_Wallet) as [[[]|e] w0]; [|discriminate].
  intros [= <-]. auto.
Qed.

(** Where the fields of a wallet from the factory come from: a mnemonic, a
    seed, or a private key. *)
Lemma constructed_origin w :
  constructed w ->
  (exists m path keys pair kp,
      _mnemonic w = Some m /\ _derivedPath w = Some path /\
      derivePath (Some path) (_seedHex w) = Return keys /\
      _seed w = Some (key keys) /\
      nacl_sign_keyPair_fromSeed (key keys) = Return pair /\
      Keypair_fromSecretKey (nacl_secretKey pair) = Return kp /\
      _keypair w = Some kp) \/
  (exists s pair kp,
      _mnemonic w = None /\ _derivedPath w = None /\
      _seed w = Some s /\ _seedHex w = Some (toString_hex s) /\
      nacl_sign_keyPair_fromSeed s = Return pair /\
      Keypair_fromSecretKey (nacl_secretKey pair) = Return kp /\
      _keypair w = Some kp) \/
  (exists k kp,
      _mnemonic w = None /\ _derivedPath w = None /\
      _seed w = None /\ _seedHex w = None /\
      Keypair_fromSecretKey k = Return kp /\
      _keypair w = Some kp).
Proof.
  intros [pass d entropy w' Hc | m pass d w' Hc | s w' Hc | k w' Hc];
    apply on_new_Wallet_returned in Hc; destruct Hc as [Hret <-].
  - left. destruct (create_run pass d entropy new_Wallet eq_refl)
      as (Hd & Hm & _ & _ & Hk).
    rewrite Hret in Hk. destruct Hk as (keys & pair & kp & ? & ? & ? & ? & ?).
    eauto 15.
  - left. destruct (restoreFromMnemonic_run m pass d new_Wallet eq_refl)
      as (Hd & Hm & _ & _ & Hk).
    rewrite Hret in Hk. destruct Hk as (keys & pair & kp & ? & ? & ? & ? & ?).
    eauto 15.
  - right; left. destruct (restoreFromSeed_run s new_Wallet)
      as (Hd & Hm & Hs & Hh & _ & Hk).
    rewrite Hret in Hk. destruct Hk as (pair & kp & ? & ? & ?).
    eauto 15.
  - right; right. destruct (restoreFromPrivateKey_run k new_Wallet)
      as (Hd & Hm & Hs & Hh & _ & Hk).
    rewrite Hret in Hk. destruct Hk as (kp & ? & ?).
    eauto 15.
Qed.

End Construction.

(** X1: the seed a factory-built wallet reports is enough to rebuild it:
    [restoreFromSeed] on that seed returns a wallet with the same keypair
    (and no mnemonic). *)
Theorem restoreFromSeed_reproduces_keypair `{Libs} (w : Wallet) (s : bytes) :
  constructed w ->
  fst (seed w) = Return (Some s) ->
  exists w',
    WalletFactory_restoreFromSeed s = Return w' /\
    fst (keypair w') = fst (keypair w) /\
    fst (mnemonic w') = Return None.
Proof.
  intros Hc Hs. unfold seed, keypair, mnemonic, this in *. simpl in *.
  injection Hs as Hs.
  assert (Hparts : exists pair kp,
             nacl_sign_keyPair_fromSeed s = Return pair /\
             Keypair_fromSecretKey (nacl_secretKey pair) = Return kp /\
             _keypair w = Some kp).
  { destruct (constructed_origin w Hc)
      as [(m & path & keys & pair & kp & _ & _ & _ & Hs' & ? & ? & ?)
         | [(s' & pair & kp & _ & _ & Hs' & _ & ? & ? & ?)
           | (k & kp & _ & _ & Hs' & _)]];
      rewrite Hs in Hs'; [| |discriminate];
      injection Hs' as ->; eauto. }
  destruct Hparts as (pair & kp & Hpair & Hkp & Hw).
  unfold WalletFactory_restoreFromSeed, on_new_Wallet.
  unfold_wallet. rewrite Hpair. simpl. rewrite Hkp. simpl.
  eexists. split; [reflexivity|]. simpl. rewrite Hw. auto.
Qed.

Lemma restoreFromSeed_reproduces_keypair_witness :
  exists w',
    WalletFactory_restoreFromSeed (L:=Sim.libs)
      (default [] (_seed (snd (create (L:=Sim.libs) None None Sim.entropy0 new_Wallet))))
      = Return w' /\
    fst (keypair w') =
      fst (keypair (snd (create (L:=Sim.libs) None None Sim.entropy0 new_Wallet))) /\
    fst (mnemonic w') = Return None.
Proof.
  apply (@restoreFromSeed_reproduces_keypair Sim.libs).
  - apply constructed_create with (pass := None) (d := None) (entropy := Sim.entropy0).
    vm_compute. reflexivity.
  - vm_compute. reflexivity.
Defined.

(** X2: the private key a factory-built wallet reports is enough to rebuild
    it: [restoreFromPrivateKey] on it returns a wallet with the same keypair
    (given that a web3.js keypair holds the secret key it was made from). *)
Theorem restoreFromPrivateKey_reproduces_keypair `{Libs} (w : Wallet) :
  fromSecretKey_keeps_bytes ->
  constructed w ->
  exists k w',
    fst (privateKey w) = Return (Some k) /\
    WalletFactory_restoreFromPrivateKey k = Return w' /\
    fst (keypair w') = fst (keypair w).
Proof.
  intros Hkeep Hc.
  assert (Hparts : exists k kp,
             Keypair_fromSecretKey k = Return kp /\ _keypair w = Some kp).
  { destruct (constructed_origin w Hc)
      as [(m & path & keys & pair & kp & _ & _ & _ & _ & _ & ? & ?)
         | [(s' & pair & kp & _ & _ & _ & _ & _ & ? & ?)
           | (k & kp & _ & _ & _ & _ & ? & ?)]]; eauto. }
  destruct Hparts as (k & kp & Hkp & Hw).
  pose proof (Hkeep k kp Hkp) as Hbytes.
  exists k. unfold WalletFactory_restoreFromPrivateKey, on_new_Wallet.
  unfold_wallet. rewrite Hw, Hkp. simpl. rewrite Hbytes.
  eexists. split; [reflexivity|]. split; reflexivity.
Qed.

Lemma restoreFromPrivateKey_reproduces_keypair_witness :
  exists k w',
    fst (privateKey (snd (create (L:=Sim.libs) None None Sim.entropy0 new_Wallet)))
      = Return (Some k) /\
    WalletFactory_restoreFromPrivateKey (L:=Sim.libs) k = Return w' /\
    fst (keypair w') =
      fst (keypair (snd (create (L:=Sim.libs) None None Sim.entropy0 new_Wallet))).
Proof.
  apply (@restoreFromPrivateKey_reproduces_keypair Sim.libs).
  - exact Sim_fromSecretKey_keeps_bytes.
  - apply constructed_create with (pass := None) (d := None) (entropy := Sim.entropy0).
    vm_compute. reflexivity.
Defined.

(** X3: a wallet the factory hands out always holds a keypair, and its
    other fields show one of three origins: a mnemonic with a path and a
    derived seed; a raw seed with its hex form and neither mnemonic nor
    path; or a private key alone. *)
Theorem constructed_wallet_origin `{Libs} (w : Wallet) :
  constructed w ->
  is_Some (_keypair w) /\
  ((is_Some (_mnemonic w) /\ is_Some (_derivedPath w) /\ is_Some (_seed w)) \/
   (_mnemonic w = None /\ _derivedPath w = None /\
    exists s, _seed w = Some s /\ _seedHex w = Some (toString_hex s)) \/
   (_mnemonic w = None /\ _derivedPath w = None /\
    _seed w = None /\ _seedHex w = None)).
Proof.
  intros Hc.
  destruct (constructed_origin w Hc)
    as [(m & path & keys & pair & kp & -> & -> & _ & -> & _ & _ & ->)
       | [(s' & pair & kp & -> & -> & -> & -> & _ & _ & ->)
         | (k & kp & -> & -> & -> & -> & _ & ->)]].
  - split; [eauto | left; eauto].
  - split; [eauto | right; left; eauto 6].
  - split; [eauto | right; right; auto].
Qed.

Lemma constructed_wallet_origin_witness :
  is_Some (_keypair (snd (restoreFromSeed (L:=Sim.libs) Sim.seed0 new_Wallet))) /\
  ((is_Some (_mnemonic (snd (restoreFromSeed (L:=Sim.libs) Sim.seed0 new_Wallet))) /\
    is_Some (_derivedPath (snd (restoreFromSeed (L:=Sim.libs) Sim.seed0 new_Wallet))) /\
    is_Some (_seed (snd (restoreFromSeed (L:=Sim.libs) Sim.seed0 new_Wallet)))) \/
   (_mnemonic (snd (restoreFromSeed (L:=Sim.libs) Sim.seed0 new_Wallet)) = None /\
    _derivedPath (snd (restoreFromSeed (L:=Sim.libs) Sim.seed0 new_Wallet)) = None /\
    exists s,
      _seed (snd (restoreFromSeed (L:=Sim.libs) Sim.seed0 new_Wallet)) = Some s /\
      _seedHex (snd (restoreFromSeed (L:=Sim.libs) Sim.seed0 new_Wallet))
        = Some (toString_hex s)) \/
   (_mnemonic (snd (restoreFromSeed (L:=Sim.libs) Sim.seed0 new_Wallet)) = None /\
    _derivedPath (snd (restoreFromSeed (L:=Sim.libs) Sim.seed0 new_Wallet)) = None /\
    _seed (snd (restoreFromSeed (L:=Sim.libs) Sim.seed0 new_Wallet)) = None /\
    _seedHex (snd (restoreFromSeed (L:=Sim.libs) Sim.seed0 new_Wallet)) = None)).
Proof.
  apply (@constructed_wallet_origin Sim.libs).
  apply constructed_seed with (s := Sim.seed0). vm_compute. reflexivity.
Defined.

(** X4: when [restoreFromPrivateKey] throws (the key is refused), the
    instance has lost its mnemonic, seed, hex seed and path all the same,
    and still holds the keypair it had before. *)
Theorem failed_restoreFromPrivateKey_state `{Libs} (k : bytes) (w : Wallet) (e : string) :
  fst (restoreFromPrivateKey k w) = Throw e ->
  Keypair_fromSecretKey k = Throw e /\
  _keypair (snd (restoreFromPrivateKey k w)) = _keypair w /\
  _mnemonic (snd (restoreFromPrivateKey k w)) = None /\
  _seed (snd (restoreFromPrivateKey k w)) = None /\
  _seedHex (snd (restoreFromPrivateKey k w)) = None /\
  _derivedPath (snd (restoreFromPrivateKey k w)) = None.
Proof.
  unfold_wallet. destruct (Keypair_fromSecretKey k) as [kp|e'] eqn:K; simpl;
    intros [= <-]. auto 10.
Qed.

Lemma failed_restoreFromPrivateKey_state_witness :
  Keypair_fromSecretKey (Libs:=Sim.libs) Sim.seed0 = Throw "bad secret key size" /\
  _keypair (snd (restoreFromPrivateKey (L:=Sim.libs) Sim.seed0
                   (snd (create (L:=Sim.libs) None None Sim.entropy0 new_Wallet))))
  = _keypair (snd (create (L:=Sim.libs) None None Sim.entropy0 new_Wallet)) /\
  _mnemonic (snd (restoreFromPrivateKey (L:=Sim.libs) Sim.seed0
                    (snd (create (L:=Sim.libs) None None Sim.entropy0 new_Wallet))))
  = None /\
  _seed (snd (restoreFromPrivateKey (L:=Sim.libs) Sim.seed0
                (snd (create (L:=Sim.libs) None None Sim.entropy0 new_Wallet))))
  = None /\
  _seedHex (snd (restoreFromPrivateKey (L:=Sim.libs) Sim.seed0
                   (snd (create (L:=Sim.libs) None None Sim.entropy0 new_Wallet))))
  = None /\
  _derivedPath (snd (restoreFromPrivateKey (L:=Sim.libs) Sim.seed0
                      (snd (create (L:=Sim.libs) None None Sim.entropy0 new_Wallet))))
  = None.
Proof.
  apply (@failed_restoreFromPrivateKey_state Sim.libs). vm_compute. reflexivity.
Defined.

(** X5: when [restoreFromSeed] throws (the seed or the key made from it is
    refused), the instance already reports the new seed and its hex form,
    has lost its mnemonic and path, and still holds the keypair it had
    before. *)
Theorem failed_restoreFromSeed_state `{Libs} (s : bytes) (w : Wallet) (e : string) :
  fst (restoreFromSeed s w) = Throw e ->
  _keypair (snd (restoreFromSeed s w)) = _keypair w /\
  fst (seed (snd (restoreFromSeed s w))) = Return (Some s) /\
  _seedHex (snd (restoreFromSeed s w)) = Some (toString_hex s) /\
  _mnemonic (snd (restoreFromSeed s w)) = None /\
  _derivedPath (snd (restoreFromSeed s w)) = None.
Proof.
  intros Hthrow.
  destruct (restoreFromSeed_run s w) as (Hd & Hm & Hs & Hh & _ & Hk).
  rewrite Hthrow in Hk. unfold seed, this. simpl. rewrite Hs. auto.
Qed.

Lemma failed_restoreFromSeed_state_witness :
  _keypair (snd (restoreFromSeed (L:=Sim.libs) [x01; x02]
                   (snd (restoreFromPrivateKey (L:=Sim.libs) Sim.secretKey0 new_Wallet))))
  = _keypair (snd (restoreFromPrivateKey (L:=Sim.libs) Sim.secretKey0 new_Wallet)) /\
  fst (seed (snd (restoreFromSeed (L:=Sim.libs) [x01; x02]
                   (snd (restoreFromPrivateKey (L:=Sim.libs) Sim.secretKey0 new_Wallet)))))
  = Return (Some [x01; x02]) /\
  _seedHex (snd (restoreFromSeed (L:=Sim.libs) [x01; x02]
                   (snd (restoreFromPrivateKey (L:=Sim.libs) Sim.secretKey0 new_Wallet))))
  = Some (toString_hex [x01; x02]) /\
  _mnemonic (snd (restoreFromSeed (L:=Sim.libs) [x01; x02]
                    (snd (restoreFromPrivateKey (L:=Sim.libs) Sim.secretKey0 new_Wallet))))
  = None /\
  _derivedPath (snd (restoreFromSeed (L:=Sim.libs) [x01; x02]
                      (snd (restoreFromPrivateKey (L:=Sim.libs) Sim.secretKey0 new_Wallet))))
  = None.
Proof.
  apply (@failed_restoreFromSeed_state Sim.libs _ _ "bad seed size").
  vm_compute. reflexivity.
Defined.



(** X7: a non-empty [derivedPath] argument is recorded and handed to the
    child-key derivation as it is, whether the table knows it or not; the
    empty string counts as no argument and gives [m/44'/501'/0'/0']. *)
Theorem path_argument_used_verbatim `{Libs}
    (pass d : option jsstring) (entropy : bytes) (m : jsstring) (w : Wallet) :
  reachable w ->
  let path := match d with
              | Some (c :: t) => c :: t
              | _ => js "m/44'/501'/0'/0'"
              end in
  (_derivedPath (snd (create pass d entropy w)) = Some path /\
   derived_along path (create pass d entropy w)) /\
  (_derivedPath (snd (restoreFromMnemonic m pass d w)) = Some path /\
   derived_along path (restoreFromMnemonic m pass d w)).
Proof.
  intros Hr. pose proof (reachable_standard_paths w Hr) as Hp.
  unfold derived_along.
  split; unfold_wallet; rewrite Hp, chosen_path; simpl;
    repeat case_match; simplify_eq; simpl in *; split; congruence.
Qed.

Lemma path_argument_used_verbatim_witness :
  let path := js "m/7'" in
  (_derivedPath (snd (create (L:=Sim.libs) None (Some (js "m/7'")) Sim.entropy0 new_Wallet))
     = Some path /\
   derived_along (L:=Sim.libs) path
     (create (L:=Sim.libs) None (Some (js "m/7'")) Sim.entropy0 new_Wallet)) /\
  (_derivedPath (snd (restoreFromMnemonic (L:=Sim.libs) (js "zoo") None
                        (Some (js "m/7'")) new_Wallet))
     = Some path /\
   derived_along (L:=Sim.libs) path
     (restoreFromMnemonic (L:=Sim.libs) (js "zoo") None (Some (js "m/7'")) new_Wallet)).
Proof.
  apply (@path_argument_used_verbatim Sim.libs None (Some (js "m/7'"))).
  apply reach_new.
Defined.

(** X8: on every wallet a program can hold, also after a call that threw,
    a mnemonic that is present comes with a derivation path that is
    present. The converse does not hold: [restoreFromMnemonic] with a phrase
    that is not a string, on a new wallet, leaves a path and no mnemonic. *)
Theorem mnemonic_implies_path `{Libs} (w : Wallet) :
  reachable w ->
  (is_Some (_mnemonic w) -> is_Some (_derivedPath w)) /\
  (reachable (invoke (RestoreFromMnemonicNotString None None) new_Wallet) /\
   is_Some (_derivedPath (invoke (RestoreFromMnemonicNotString None None) new_Wallet)) /\
   _mnemonic (invoke (RestoreFromMnemonicNotString None None) new_Wallet) = None).
Proof.
  intros Hreach. split.
  - induction Hreach as [|c w Hr IH]; [intros [x Hx]; discriminate|].
    pose proof (reachable_standard_paths w Hr) as Hp.
    destruct c;
      try (unfold invoke; unfold_wallet; exact IH).
    + unfold invoke. destruct (create_run pass derivedPath entropy w Hp) as (-> & _).
      eauto.
    + unfold invoke.
      destruct (restoreFromMnemonic_run m pass derivedPath w Hp) as (-> & _).
      eauto.
    + unfold invoke.
      destruct (restoreFromMnemonic_not_string_run pass derivedPath w Hp)
        as (_ & Hd & _). intros _. exact Hd.
    + unfold invoke. destruct (restoreFromSeed_run s w) as (_ & -> & _).
      intros [x Hx]; discriminate.
    + unfold invoke. destruct (restoreFromPrivateKey_run k w) as (_ & -> & _).
      intros [x Hx]; discriminate.
  - split; [apply reach_invoke, reach_new|].
    unfold invoke.
    destruct (restoreFromMnemonic_not_string_run None None new_Wallet eq_refl)
      as (_ & Hd & Hm & _).
    split; [exact Hd | exact Hm].
Qed.

Lemma mnemonic_implies_path_witness :
  (is_Some (_mnemonic (invoke (L:=Sim.libs) (RestoreFromMnemonic (js "zoo") None None)
                        new_Wallet)) ->
   is_Some (_derivedPath (invoke (L:=Sim.libs) (RestoreFromMnemonic (js "zoo") None None)
                            new_Wallet))) /\
  (reachable (L:=Sim.libs)
     (invoke (L:=Sim.libs) (RestoreFromMnemonicNotString None None) new_Wallet) /\
   is_Some (_derivedPath
              (invoke (L:=Sim.libs) (RestoreFromMnemonicNotString None None) new_Wallet)) /\
   _mnemonic (invoke (L:=Sim.libs) (RestoreFromMnemonicNotString None None) new_Wallet)
     = None).
Proof.
  apply (@mnemonic_implies_path Sim.libs). apply reach_invoke, reach_new.
Defined.

(* ===================================================================== *)
(** ** Further properties of normalization *)
(* ===================================================================== *)

Lemma trimStart_all_ws s : Forall (fun c => isWhiteSpace c = true) s -> trimStart s = [].
Proof. induction 1 as [|c s Hc _ IH]; [reflexivity|]. simpl. now rewrite Hc. Qed.

Lemma trimStart_app_ws pre s :
  Forall (fun c => isWhiteSpace c = true) pre -> trimStart (pre ++ s) = trimStart s.
Proof. induction 1 as [|c pre Hc _ IH]; [reflexivity|]. simpl. now rewrite Hc. Qed.

Lemma trimEnd_all_ws s : Forall (fun c => isWhiteSpace c = true) s -> trimEnd s = [].
Proof. induction 1 as [|c s Hc _ IH]; [reflexivity|]. simpl. now rewrite IH, Hc. Qed.

Lemma trimEnd_app_ws s post :
  Forall (fun c => isWhiteSpace c = true) post -> trimEnd (s ++ post) = trimEnd s.
Proof.
  intros Hpost. induction s as [|c s IH]; [now apply trimEnd_all_ws|].
  simpl. now rewrite IH.
Qed.

Lemma trim_app_ws s post :
  Forall (fun c => isWhiteSpace c = true) post -> trim (s ++ post) = trim s.
Proof.
  intros Hpost. unfold trim. induction s as [|c s IH].
  - simpl. now rewrite trimStart_all_ws.
  - simpl. destruct (isWhiteSpace c); [exact IH|].
    now apply (trimEnd_app_ws (c :: s)).
Qed.

Lemma trim_padded pre s post :
  Forall (fun c => isWhiteSpace c = true) pre ->
  Forall (fun c => isWhiteSpace c = true) post ->
  trim (pre ++ s ++ post) = trim s.
Proof.
  intros Hpre Hpost. unfold trim at 1. rewrite trimStart_app_ws by assumption.
  now apply trim_app_ws.
Qed.

Lemma normalize_idempotent m :
  _normalizeMnemonic (_normalizeMnemonic m) = _normalizeMnemonic m.
Proof.
  destruct (normalize_single_spaced m) as (ws & -> & Hws).
  now apply normalize_join_words.
Qed.

(** X9: normalization keeps the words: splitting the normalized phrase at
    white space gives the same pieces, in the same order, as splitting the
    trimmed phrase. *)
Theorem normalizeMnemonic_keeps_words (m : jsstring) :
  split_ws (_normalizeMnemonic m) = split_ws (trim m).
Proof.
  unfold _normalizeMnemonic. destruct (split_trim m) as [E | Hws].
  - rewrite E. reflexivity.
  - unfold split_ws in *. apply split_join_words; [exact Hws|].
    apply split_ws_from_not_nil.
Qed.

(** X10: white space before and after a phrase makes no difference, to the
    normalized phrase or to the wallet restored from it. *)
Theorem surrounding_white_space_ignored `{Libs}
    (pre m post : jsstring) (pass d : option jsstring) (w : Wallet) :
  Forall (fun c => isWhiteSpace c = true) pre ->
  Forall (fun c => isWhiteSpace c = true) post ->
  _normalizeMnemonic (pre ++ m ++ post) = _normalizeMnemonic m /\
  restoreFromMnemonic (pre ++ m ++ post) pass d w = restoreFromMnemonic m pass d w.
Proof.
  intros Hpre Hpost.
  assert (E : _normalizeMnemonic (pre ++ m ++ post) = _normalizeMnemonic m).
  { unfold _normalizeMnemonic. now rewrite trim_padded. }
  split; [exact E|]. unfold restoreFromMnemonic. now rewrite E.
Qed.

Lemma surrounding_white_space_ignored_witness :
  _normalizeMnemonic ([9; 32] ++ js "zoo  abandon" ++ [10; 12288])
    = _normalizeMnemonic (js "zoo  abandon") /\
  restoreFromMnemonic (L:=Sim.libs) ([9; 32] ++ js "zoo  abandon" ++ [10; 12288])
    None None new_Wallet
  = restoreFromMnemonic (L:=Sim.libs) (js "zoo  abandon") None None new_Wallet.
Proof.
  apply (@surrounding_white_space_ignored Sim.libs);
    repeat constructor.
Defined.

(** X11: the mnemonic a wallet stores after [restoreFromMnemonic] can be
    fed back: restoring from it, with the same passphrase and path, runs
    exactly as restoring from the original phrase did. *)
Theorem stored_mnemonic_restores_alike `{Libs}
    (m : jsstring) (pass d : option jsstring) (w : Wallet) :
  exists m',
    fst (mnemonic (snd (restoreFromMnemonic m pass d w))) = Return (Some m') /\
    forall w1, restoreFromMnemonic m' pass d w1 = restoreFromMnemonic m pass d w1.
Proof.
  exists (_normalizeMnemonic m). split.
  - unfold_wallet. repeat case_match; reflexivity.
  - intros w1. unfold restoreFromMnemonic. now rewrite normalize_idempotent.
Qed.

(* ===================================================================== *)
(** ** Further properties of the package and of spl.js *)
(* ===================================================================== *)

(** X12: requiring the package never gives anything usable. As shipped it
    throws under Node, in either module format. After an ES-to-CommonJS
    transform, the object the package exports has exactly the four
    properties [Wallet], [walletFactory], [Spl] and [splFactory], and every
    one of them holds [undefined]; none of the factories' methods can be
    reached through it, although the transformed wallet.js itself does
    offer them. *)
Theorem package_exports_nothing_usable :
  ((exists e, fst (Modules.index_js Modules.Node_CommonJS Modules.initial_store)
              = Throw e) /\
   (exists e, fst (Modules.index_js Modules.Node_ESModule Modules.initial_store)
              = Throw e)) /\
  (exists e spl_Wallet st,
     Modules.index_js Modules.Transformed Modules.initial_store
       = (Return (e, spl_Wallet), st) /\
     (forall k,
        Modules.own st e k =
        if bool_decide (k ∈ ["Wallet"; "walletFactory"; "Spl"; "splFactory"])
        then Some Modules.VUndefined else None) /\
     Forall (fun k => Modules.get st e k = Modules.VUndefined)
       ["create"; "restoreFromMnemonic"; "restoreFromSeed"; "restoreFromPrivateKey";
        "derivationPaths"; "clusters"]) /\
  (exists w st,
     Modules.wallet_js Modules.Transformed Modules.initial_store = (Return w, st) /\
     Forall (fun k => Modules.get st w k = Modules.VFunction k)
       ["create"; "restoreFromMnemonic"; "restoreFromSeed"; "restoreFromPrivateKey"]).
Proof.
  split; [split; eexists; vm_compute; reflexivity|].
  split.
  - eexists _, _, _. split; [vm_compute; reflexivity|].
    split; [|repeat constructor].
    intros k.
    match goal with
    | |- Modules.own ?st ?e k = _ =>
        assert (E : Modules.own st e k
                    = ({[ "Wallet" := Modules.VUndefined;
                          "walletFactory" := Modules.VUndefined;
                          "Spl" := Modules.VUndefined;
                          "splFactory" := Modules.VUndefined ]}
                       : gmap string Modules.value) !! k)
          by (vm_compute; reflexivity);
        rewrite E; clear E
    end.
    case_bool_decide as Hk.
    + repeat (apply elem_of_cons in Hk; destruct Hk as [-> | Hk]);
        [reflexivity.. | inversion Hk].
    + apply lookup_insert_None. split; [|intros <-; apply Hk; set_solver].
      apply lookup_insert_None. split; [|intros <-; apply Hk; set_solver].
      apply lookup_insert_None. split; [|intros <-; apply Hk; set_solver].
      apply lookup_singleton_None. intros <-; apply Hk; set_solver.
  - eexists _, _. split; [vm_compute; reflexivity|]. repeat constructor.
Qed.

Example fresh_Spl_has_no_static_field :
  Modules.get SplJs.fresh_store (Modules.VObject SplJs.fresh_Spl) "_clusters"
    = Modules.VUndefined /\
  Modules.get SplJs.fresh_store (Modules.VObject SplJs.fresh_Spl) "clusters"
    = Modules.VAccessor "clusters" /\
  Modules.get SplJs.fresh_store (Modules.VObject (SplJs.Spl_constructor SplJs.the_class))
    "_clusters" <> Modules.VUndefined.
Proof. vm_compute. repeat split. discriminate. Qed.

(** X13: [connect] never returns. It reads [_clusters] and
    [_clusterApiUrls] off the instance, where the [static] fields are not
    to be found, so for every argument it throws a [TypeError] before a
    connection is made: [_connection] stays [null], and [_cluster] holds the
    argument if that was truthy and stays [null] otherwise. [SplFactory]'s
    [create], which is [new Spl().connect(cluster)], throws likewise. *)
Theorem connect_always_throws
    (Connection : Modules.value -> string -> completion Modules.value)
    (cluster : Modules.value) :
  let r := SplJs.connect Connection SplJs.fresh_Spl cluster SplJs.fresh_store in
  fst r = Throw "TypeError: Cannot read properties of undefined" /\
  Modules.get (snd r) (Modules.VObject SplJs.fresh_Spl) "_connection" = Modules.VNull /\
  Modules.get (snd r) (Modules.VObject SplJs.fresh_Spl) "_cluster"
    = (if SplJs.truthy cluster then cluster else Modules.VNull) /\
  fst (SplJs.SplFactory_create Connection SplJs.the_class cluster SplJs.class_store)
    = Throw "TypeError: Cannot read properties of undefined".
Proof.
  destruct cluster as [| |[|a s]| | |]; vm_compute; repeat split.
Qed.

(** X14: [generateKeypair] never searches. Without a prefix, or with the
    empty one, it returns the first generated keypair; with a prefix, it
    returns the first keypair if its base-58 public key starts with the
    prefix and otherwise throws a [TypeError] out of the first iteration,
    after generating one more keypair that it cannot assign. One iteration
    of the loop always suffices. *)
Theorem generateKeypair_never_searches `{Libs}
    (generated : nat -> Keypair) (fuel : nat) (prefix : option jsstring) :
  SplJs.generateKeypair generated (S fuel) prefix =
  match prefix with
  | None | Some [] => (Return (generated 0%nat), 1%nat)
  | Some p =>
      if SplJs.startsWith (PublicKey_toBase58 (publicKey (generated 0%nat))) p
      then (Return (generated 0%nat), 1%nat)
      else (Throw "TypeError: Assignment to constant variable.", 2%nat)
  end.
Proof.
  destruct prefix as [[|c p]|]; try reflexivity.
  unfold SplJs.generateKeypair. simpl.
  destruct (SplJs.startsWith _ _); reflexivity.
Qed.

(* ===================================================================== *)
(** ** The printed private key *)
(* ===================================================================== *)

Lemma parse_decimal_of_byte b rest :
  parse_decimals 0 (decimal_of_byte b ++ rest) = parse_decimals (Byte.to_N b) rest.
Proof. destruct b; reflexivity. Qed.

Lemma decimal_of_byte_not_nil b : decimal_of_byte b <> [].
Proof. destruct b; discriminate. Qed.

Lemma parse_decimals_comma acc s :
  parse_decimals acc (js "," ++ s) = acc :: parse_decimals 0 s.
Proof. reflexivity. Qed.

Lemma parse_Uint8Array_toString b l :
  parse_decimals 0 (Uint8Array_toString (b :: l)) = map Byte.to_N (b :: l).
Proof.
  revert b; induction l as [|b' l IH]; intros b.
  - unfold Uint8Array_toString. simpl map. simpl join.
    rewrite <- (app_nil_r (decimal_of_byte b)), parse_decimal_of_byte. reflexivity.
  - specialize (IH b'). unfold Uint8Array_toString in *.
    change (map decimal_of_byte (b :: b' :: l))
      with (decimal_of_byte b :: map decimal_of_byte (b' :: l)).
    destruct (map decimal_of_byte (b' :: l)) as [|p ps] eqn:E; [discriminate|].
    rewrite join_cons_cons, parse_decimal_of_byte, parse_decimals_comma, IH.
    reflexivity.
Qed.

Lemma to_N_injective a b : Byte.to_N a = Byte.to_N b -> a = b.
Proof.
  intros E. apply (f_equal Byte.of_N) in E. rewrite !Byte.of_to_N in E. congruence.
Qed.

Lemma Uint8Array_toString_injective l1 l2 :
  Uint8Array_toString l1 = Uint8Array_toString l2 -> l1 = l2.
Proof.
  intros E. destruct l1 as [|a l1], l2 as [|b l2]; [reflexivity | | |].
  - exfalso. unfold Uint8Array_toString in E. simpl map in E.
    destruct l2; simpl in E; [|symmetry in E; apply app_eq_nil in E; destruct E as [E _]];
      now apply (decimal_of_byte_not_nil b).
  - exfalso. unfold Uint8Array_toString in E. simpl map in E.
    destruct l1; simpl in E; [|apply app_eq_nil in E; destruct E as [E _]];
      now apply (decimal_of_byte_not_nil a).
  - apply (f_equal (parse_decimals 0)) in E.
    rewrite !parse_Uint8Array_toString in E.
    revert E. generalize (a :: l1) (b :: l2). clear.
    induction l as [|x l IH]; intros [|y l'] E; try discriminate; [reflexivity|].
    simpl in E. injection E as Hxy E. f_equal; [now apply to_N_injective | now apply IH].
Qed.

(** X15: the printed private key identifies the key: two wallets whose
    [privateKeyString] accessors return the same string hold the same
    private key bytes. *)
Theorem privateKeyString_determines_key `{Libs} (w1 w2 : Wallet) (printed : jsstring) :
  fst (privateKeyString w1) = Return (Some printed) ->
  fst (privateKeyString w2) = Return (Some printed) ->
  fst (privateKey w1) = fst (privateKey w2).
Proof.
  unfold_wallet. destruct (_keypair w1) as [k1|], (_keypair w2) as [k2|];
    simpl; try discriminate.
  intros [= <-] [= E]. do 2 f_equal.
  apply app_inv_tail in E. symmetry. now apply Uint8Array_toString_injective.
Qed.

Lemma privateKeyString_determines_key_witness :
  fst (privateKey (snd (restoreFromPrivateKey (L:=Sim.libs) Sim.secretKey0 new_Wallet)))
  = fst (privateKey (snd (restoreFromSeed (L:=Sim.libs) Sim.seed0 new_Wallet))).
Proof.
  apply (@privateKeyString_determines_key Sim.libs _ _
           (js "[" ++ Uint8Array_toString Sim.secretKey0 ++ js "]"));
    vm_compute; reflexivity.
Defined.
